(** * midjourney.py: prompt matching, message classification, quadrant
    splitting, message extraction and the polling loop.

    A shallow embedding of [src/midjourney.py].  Python values are modelled
    as follows.

    - A [str] is a list of characters.  Characters are the code points
      0..255 (Latin-1); on that range [str.lower], [\s], [\d] and [.] are
      given below as CPython defines them.
    - A compiled pattern is a term of [Re.regex]; [Re.rmatch] is a
      backtracking matcher with the priorities of the [re] module (first
      alternative first, greedy repetition first).
    - Calls that may raise return a value of [res]: [Ok v] or [Raise e].
    - The page shown by the browser, the HTTP client, the image decoder
      and the disk are parameters of the model. *)

From Stdlib Require Import Ascii String DecimalString.
From Stdlib Require Import List Bool Arith NArith Lia.
Import ListNotations.

Set Implicit Arguments.

(* ================================================================== *)
(** * Part I: definitions *)
(* ================================================================== *)

(** ** Strings *)

Definition str := list ascii.

(** A string literal of the source. *)
Definition lit (s : string) : str := list_ascii_of_string s.

Definition str_eq_dec : forall a b : str, {a = b} + {a <> b} :=
  list_eq_dec ascii_dec.

Definition code (c : ascii) : nat := nat_of_ascii c.

Definition in_range (lo hi : nat) (c : ascii) : bool :=
  (lo <=? code c) && (code c <=? hi).

(** [str.isspace] on one character, which is also the class [\s] of a
    [str] pattern: TAB..CR, FS..US, SPACE, NEL and NBSP. *)
Definition isspace (c : ascii) : bool :=
  in_range 9 13 c || in_range 28 32 c
  || (code c =? 133) || (code c =? 160).

Definition nonspace (c : ascii) : bool := negb (isspace c).

(** The class [\d]: decimal digits; below 256 these are '0'..'9'. *)
Definition isdecimal (c : ascii) : bool := in_range 48 57 c.

(** The class [[1-9]]. *)
Definition digit19 (c : ascii) : bool := in_range 49 57 c.

(** The class [.] without DOTALL: anything but a line feed. *)
Definition dot (c : ascii) : bool := negb (code c =? 10).

(** [str.lower] on one character: 'A'..'Z' and the capital letters
    U+00C0..U+00DE (the multiplication sign U+00D7 apart) move up by 32. *)
Definition lower_char (c : ascii) : ascii :=
  if in_range 65 90 c || (in_range 192 222 c && negb (code c =? 215))
  then ascii_of_nat (code c + 32)
  else c.

(** [s.lower()] *)
Definition lower (s : str) : str := map lower_char s.

(** [s.startswith(p)], returning what follows the prefix. *)
Fixpoint strip_prefix (p s : str) : option str :=
  match p, s with
  | [], _ => Some s
  | _ :: _, [] => None
  | a :: p', b :: s' => if Ascii.eqb b a then strip_prefix p' s' else None
  end.

Definition startswith (p s : str) : bool :=
  match strip_prefix p s with Some _ => true | None => false end.

(** [p in s] for two strings: [p] starts at some position of [s]. *)
Fixpoint contains (s p : str) : bool :=
  startswith p s ||
  match s with
  | [] => false
  | _ :: s' => contains s' p
  end.

(** [str(n)] for a non-negative integer. *)
Definition str_of_nat (n : nat) : str :=
  lit (NilEmpty.string_of_uint (Nat.to_uint n)).

(** [s.split(sep)] for a one-character separator: the pieces between the
    separators, never an empty list. *)
Fixpoint split (sep : ascii) (s : str) : list str :=
  match s with
  | [] => [[]]
  | c :: s' =>
    if Ascii.eqb c sep then [] :: split sep s'
    else match split sep s' with
         | [] => [[c]]
         | w :: ws => (c :: w) :: ws
         end
  end.

(** ** The [re] module *)

Module Re.

Inductive regex : Type :=
| Eps                               (* the empty pattern *)
| Chr (c : ascii)                   (* a literal character *)
| Cls (p : ascii -> bool)           (* a class: \d, \s, [..], . *)
| Cat (r1 r2 : regex)               (* r1 r2 *)
| Alt (r1 r2 : regex)               (* r1|r2 *)
| Opt (r : regex)                   (* r? (greedy) *)
| Rep1 (p : ascii -> bool).         (* c+ on a class (greedy) *)

(** A run of literal characters. *)
Fixpoint chars (s : str) : regex :=
  match s with
  | [] => Eps
  | [c] => Chr c
  | c :: s' => Cat (Chr c) (chars s')
  end.

(** [c+]: the longest run is tried first, then shorter ones. *)
Fixpoint rep1 (A : Type) (p : ascii -> bool) (s : str)
         (k : str -> option A) : option A :=
  match s with
  | [] => None
  | c :: s' =>
    if p c then
      match rep1 p s' k with
      | Some a => Some a
      | None => k s'
      end
    else None
  end.

(** [rmatch r s k]: match [r] at the start of [s] and hand the rest of the
    string to [k]; when [k] refuses, the matcher backtracks. *)
Fixpoint rmatch (A : Type) (r : regex) (s : str)
         (k : str -> option A) : option A :=
  match r with
  | Eps => k s
  | Chr c =>
    match s with
    | x :: s' => if Ascii.eqb x c then k s' else None
    | [] => None
    end
  | Cls p =>
    match s with
    | x :: s' => if p x then k s' else None
    | [] => None
    end
  | Cat r1 r2 => rmatch r1 s (fun s1 => rmatch r2 s1 k)
  | Alt r1 r2 =>
    match rmatch r1 s k with
    | Some a => Some a
    | None => rmatch r2 s k
    end
  | Opt r1 =>
    match rmatch r1 s k with
    | Some a => Some a
    | None => k s
    end
  | Rep1 p => rep1 p s k
  end.

(** [re.match(r, s)]: the rest of [s] after the match, if there is one. *)
Definition match_ (r : regex) (s : str) : option str :=
  rmatch r s (fun rest => Some rest).


(** [re.search(r, s)] as a truth value: a match at some position. *)
Fixpoint search (r : regex) (s : str) : bool :=
  match match_ r s with
  | Some _ => true
  | None =>
    match s with
    | [] => false
    | _ :: s' => search r s'
    end
  end.

(** [re.sub(r, repl, s)] for a pattern that matches no empty string and
    a replacement without escapes.  [skip] counts the characters of the
    current match that are still to be dropped. *)
Fixpoint sub_from (r : regex) (repl : str) (skip : nat) (s : str) : str :=
  match s with
  | [] => []
  | c :: s' =>
    match skip with
    | S n => sub_from r repl n s'
    | O =>
      match match_ r s with
      | Some rest => repl ++ sub_from r repl (length s' - length rest) s'
      | None => c :: sub_from r repl 0 s'
      end
    end
  end.

Definition sub (r : regex) (repl : str) (s : str) : str :=
  sub_from r repl 0 s.

End Re.

(** ** midjourney.py *)

Inductive MidJourneyImageType : Type :=
| MIDJOURNEY_UPSCALE
| MIDJOURNEY_GRID.

Record DiscordMessage : Type := {
  id : str;
  content : str;
  images : list str
}.

(** [r"\((100|[1-9]?\d)%\)"] *)
Definition progress_regexp : Re.regex :=
  Re.Cat (Re.Chr "(")
    (Re.Cat (Re.Alt (Re.chars (lit "100"))
                    (Re.Cat (Re.Opt (Re.Cls digit19)) (Re.Cls isdecimal)))
            (Re.chars (lit "%)"))).

(** [r"\*\* - Image #(\d+) <@"] *)
Definition image_number_regexp : Re.regex :=
  Re.Cat (Re.chars (lit "** - Image #"))
    (Re.Cat (Re.Rep1 isdecimal) (Re.chars (lit " <@"))).

(** [r" - Variations by @.+ \("] *)
Definition variations_regexp : Re.regex :=
  Re.Cat (Re.chars (lit " - Variations by @"))
    (Re.Cat (Re.Rep1 dot) (Re.chars (lit " ("))).

(** [r" - @.+ \("], the pattern written in place in the third test. *)
Definition grid_regexp : Re.regex :=
  Re.Cat (Re.chars (lit " - @"))
    (Re.Cat (Re.Rep1 dot) (Re.chars (lit " ("))).

Definition _classify_midjourney_message (message : DiscordMessage)
  : option MidJourneyImageType :=
  if Re.search progress_regexp (content message) then None
  else
    let image_number := Re.search image_number_regexp (content message) in
    if (0 <? length (images message)) && image_number
    then Some MIDJOURNEY_UPSCALE
    else if (0 <? length (images message))
            && Re.search grid_regexp (content message)
    then Some MIDJOURNEY_GRID
    else if (0 <? length (images message))
            && Re.search variations_regexp (content message)
    then Some MIDJOURNEY_GRID
    else None.

(** [r"(<?https?:\/\/[^\s]+>?)"] *)
Definition url_pattern : Re.regex :=
  Re.Cat (Re.Opt (Re.Chr "<"))
    (Re.Cat (Re.chars (lit "http"))
      (Re.Cat (Re.Opt (Re.Chr "s"))
        (Re.Cat (Re.chars (lit "://"))
          (Re.Cat (Re.Rep1 nonspace) (Re.Opt (Re.Chr ">")))))).

Definition url_token : str := lit "<URL>".

Definition _match_mid_journey_prompt_ignoring_urls
           (prompt message_content : str) : bool :=
  let prompt := Re.sub url_pattern url_token (lower prompt) in
  let message_content := Re.sub url_pattern url_token (lower message_content) in
  contains message_content prompt.

(** ** Exceptions *)

Inductive exn : Type :=
| ValueError (msg : str)
| AttributeError
| StaleElementReferenceException
| NoSuchElementException
| IndexError
| ConnectionError
| UnidentifiedImageError
| DecompressionBombError
| OSError
| OtherError (name : str).

Inductive res (A : Type) : Type :=
| Ok (a : A)
| Raise (e : exn).

Arguments Ok {A} a.
Arguments Raise {A} e.

Definition bind (A B : Type) (m : res A) (f : A -> res B) : res B :=
  match m with
  | Ok a => f a
  | Raise e => Raise e
  end.

Declare Scope res_scope.
Delimit Scope res_scope with res.
Notation "x <- m ;; f" := (bind m (fun x => f))
  (at level 61, m at next level, right associativity) : res_scope.
Open Scope res_scope.

(** ** Images *)

Section Images.

(** The type of a pixel value and of the [info] dictionary. *)
Variables (px meta : Type).

(** A decoded [PIL.Image.Image]: its [size], its pixels by column and
    row, and its [info]. *)
Record Image : Type := {
  width : N;
  height : N;
  getpixel : N -> N -> px;
  info : meta
}.

Definition size (im : Image) : N * N := (width im, height im).

(** Number of pixels of an image. *)
Definition area (im : Image) : N := (width im * height im)%N.

(** [Image.MAX_IMAGE_PIXELS], and the number of pixels that Pillow counts
    for a size: a side of length 0 counts as 1. *)
Definition MAX_IMAGE_PIXELS : N := 89478485.

Definition bomb_pixels (w h : N) : N := (N.max 1 w * N.max 1 h)%N.

(** [image.crop((left, upper, right, lower))]: the region has size
    [(right - left, lower - upper)] and keeps [info].  A box whose right
    edge is left of its left edge, or whose lower edge is above its upper
    edge, is refused, and so is a box of more than twice
    [MAX_IMAGE_PIXELS] pixels (the decompression bomb check). *)
Definition crop (im : Image) (box : N * N * N * N) : res Image :=
  let '(x0, y0, x1, y1) := box in
  if (x1 <? x0)%N
  then Raise (ValueError (lit "Coordinate 'right' is less than 'left'"))
  else if (y1 <? y0)%N
  then Raise (ValueError (lit "Coordinate 'lower' is less than 'upper'"))
  else if (2 * MAX_IMAGE_PIXELS <? bomb_pixels (x1 - x0) (y1 - y0))%N
  then Raise DecompressionBombError
  else Ok {| width := x1 - x0;
             height := y1 - y0;
             getpixel := fun x y => getpixel im (x + x0) (y + y0);
             info := info im |}.

(** [math.floor(n / 2)] for a size [n]: the true division of an integer
    below 2^53 by two is exact, so its floor is the integer quotient. *)
Definition floor_half (n : N) : N := (n / 2)%N.

Definition _split_in_four (image : Image) : res (list Image) :=
  let width := width image in
  let height := height image in
  q0 <- crop image (0, 0, floor_half width, floor_half height)%N ;;
  q1 <- crop image (floor_half width, 0, width, floor_half height)%N ;;
  q2 <- crop image (0, floor_half height, floor_half width, height)%N ;;
  q3 <- crop image (floor_half width, floor_half height, width, height)%N ;;
  Ok [q0; q1; q2; q3].

(** The region of an image between two corners, and the four regions that
    meet at the middle of an image: top-left, top-right, bottom-left and
    bottom-right. *)
Definition region (im : Image) (x0 y0 x1 y1 : N) : Image :=
  {| width := x1 - x0;
     height := y1 - y0;
     getpixel := fun x y => getpixel im (x + x0) (y + y0);
     info := info im |}.

Definition quadrants_of (image : Image) : list Image :=
  let W := width image in
  let H := height image in
  [region image 0 0 (W / 2) (H / 2);
   region image (W / 2) 0 W (H / 2);
   region image 0 (H / 2) (W / 2) H;
   region image (W / 2) (H / 2) W H]%N.

End Images.

(** ** The page *)

(** An [<a>] element found under a message; reading its [href] may raise
    and may yield [None]. *)
Record LinkElement : Type := {
  href : res (option str)
}.

(** The element found by ["div.markup-eYLPri.messageContent-2t3eCI"]. *)
Record ContentElement : Type := {
  text : res str
}.

(** A [li] element of the message list, as far as the code reads it:
    - [get_id]: the result of [get_attribute("id")];
    - [find_content]: the result of [find_element] for the content
      [div], which raises [NoSuchElementException] when there is none;
    - [find_links]: the result of [find_elements] for
      ["a[class*='originalLink-']"]. *)
Record WebElement : Type := {
  get_id : res (option str);
  find_content : res ContentElement;
  find_links : res (list LinkElement)
}.

(** A Python value is true unless it is [None] or empty. *)
Definition truthy (s : str) : bool :=
  match s with [] => false | _ :: _ => true end.

Definition _get_image_url (message : WebElement) : res str :=
  let image_url : str := [] in
  image_url <-
    (if negb (truthy image_url) then
       image_element <- find_links message ;;
       match image_element with
       | first :: _ =>
         h <- href first ;;
         Ok (match h with Some u => u | None => [] end)
       | [] => Ok image_url
       end
     else Ok image_url) ;;
  Ok (if truthy image_url then image_url else []).

(** [self.driver]: [None] before initialisation, otherwise the message
    list items that [find_elements] returns at each poll. *)
Definition WebDriver : Type := nat -> list WebElement.

Record MidJourneyAPI : Type := {
  driver : option WebDriver
}.

(** The body of the [for] loop of [extract_messages]: the messages
    appended for the elements [messages], in order. *)
Fixpoint extract_loop (messages : list WebElement) : res (list DiscordMessage) :=
  match messages with
  | [] => Ok []
  | message :: later =>
    match get_id message with
    | Raise AttributeError
    | Raise StaleElementReferenceException
    | Raise NoSuchElementException => extract_loop later       (* continue *)
    | Raise e => Raise e
    | Ok None => extract_loop later                            (* continue *)
    | Ok (Some message_id) =>
      content_div <- find_content message ;;
      text_content <- text content_div ;;
      image_url <- _get_image_url message ;;
      if negb (truthy image_url) then extract_loop later       (* continue *)
      else
        extracted <- extract_loop later ;;
        Ok ({| id := message_id;
               content := text_content;
               images := [image_url] |} :: extracted)
    end
  end.

(** [self.extract_messages()] at poll number [tick]. *)
Definition extract_messages (self : MidJourneyAPI) (tick : nat)
  : res (list DiscordMessage) :=
  match driver self with
  | None => Raise (ValueError (lit "WebDriver not initialized"))
  | Some drv => extract_loop (drv tick)
  end.

(** ** The polling loop *)

(** What [requests.get] returns. *)
Record Response : Type := {
  status_code : nat;
  response_content : list ascii
}.

Section Polling.

Variables (px meta : Type).

(** [requests.get(url)]: a response, whatever its status, or an
    exception when no response arrives. *)
Variable requests_get : str -> res Response.

(** [Image.open(BytesIO(data))]: the decoded image, or an exception when
    the bytes are not an image; an exception that Pillow raises only when
    the pixels are first read counts as raised here. *)
Variable Image_open : list ascii -> res (Image px meta).

(** [os.makedirs("./images", exist_ok=True)]: done, or an exception. *)
Variable os_makedirs : res unit.

(** [image.save(full_path, **metadata)]: the image is saved under the
    path, or an exception is raised and no image has been saved there. *)
Variable Image_save : Image px meta -> str -> meta -> res unit.

(** The files written so far, oldest first: path and saved image. *)
Definition files : Type := list (str * Image px meta).

(** [download_url.split("/")[-1].split("?")[0]] *)
Definition file_name_of (download_url : str) : str :=
  hd [] (split "?" (last (split "/" download_url) [])).

(** [f"./images/{file_name}-{i}.png"] *)
Definition full_path_of (file_name : str) (i : nat) : str :=
  let image_name := file_name ++ lit "-" ++ str_of_nat i ++ lit ".png" in
  lit "./images/" ++ image_name.

(** [for i, image in enumerate(images)]: save each quadrant and record
    its path.  When a save raises, the loop ends with that exception and
    the files written before stay where they are. *)
Fixpoint save_loop (metadata : meta) (file_name : str) (i : nat)
         (images : list (Image px meta))
         (image_paths : list str) (fs : files) : res (list str) * files :=
  match images with
  | [] => (Ok image_paths, fs)
  | image :: later =>
    let full_path := full_path_of file_name i in
    match Image_save image full_path metadata with
    | Raise e => (Raise e, fs)
    | Ok _ =>
      save_loop metadata file_name (S i) later
                (image_paths ++ [full_path]) (fs ++ [(full_path, image)])
    end
  end.

(** The body of the innermost [if]: from [download_url = ...] to
    [return image_paths].  [print] leaves no trace in the model. *)
Definition download_and_split (message : DiscordMessage) (fs : files)
  : res (list str) * files :=
  let split_images :=
    match images message with
    | [] => Raise IndexError
    | download_url :: _ =>
      response <- requests_get download_url ;;
      image <- Image_open (response_content response) ;;
      let metadata := info image in
      quadrants <- _split_in_four image ;;
      _ <- os_makedirs ;;
      Ok (file_name_of download_url, metadata, quadrants)
    end in
  match split_images with
  | Raise e => (Raise e, fs)
  | Ok (file_name, metadata, quadrants) =>
    save_loop metadata file_name 0 quadrants [] fs
  end.

Variables (old_message_ids : list str) (prompt : str).

(** [for message in messages]: [Some] outcome when the loop body returns
    or raises, [None] when the loop runs to its end. *)
Fixpoint scan_messages (messages : list DiscordMessage) (fs : files)
  : option (res (list str) * files) :=
  match messages with
  | [] => None
  | message :: later =>
    if _match_mid_journey_prompt_ignoring_urls prompt (content message)
       && (if in_dec str_eq_dec (id message) old_message_ids
           then false else true)
       && (match images message with [] => false | _ :: _ => true end)
    then
      match _classify_midjourney_message message with
      | None => scan_messages later fs                       (* continue *)
      | Some classification =>
        let is_midjourney_grid :=
          match classification with
          | MIDJOURNEY_GRID => true
          | MIDJOURNEY_UPSCALE => false
          end in
        if (length (images message) =? 1)
           && is_midjourney_grid
           && _match_mid_journey_prompt_ignoring_urls prompt (content message)
        then Some (download_and_split message fs)
        else scan_messages later fs
      end
    else scan_messages later fs
  end.

Variable self : MidJourneyAPI.

(** [self._wait_for_image(old_message_ids, prompt)], polls [tick],
    [tick + 1], ...; [None] when [fuel] polls have passed and the loop is
    still running. *)
Fixpoint _wait_for_image (fuel tick : nat)
  : option (res (list str) * files) :=
  match fuel with
  | O => None
  | S fuel' =>
    match extract_messages self tick with
    | Raise e => Some (Raise e, [])
    | Ok messages =>
      match scan_messages messages [] with
      | Some outcome => Some outcome
      | None => _wait_for_image fuel' (S tick)               (* sleep *)
      end
    end
  end.

End Polling.

(** ** The specification's wording *)

(** The head of a URL: an optional ['<'], [http] or [https], [://] and
    one character that is not white space. *)
Definition word_after (p s : str) : bool :=
  match strip_prefix p s with
  | Some (c :: _) => nonspace c
  | _ => false
  end.

Definition has_scheme (s : str) : bool :=
  word_after (lit "http://") s || word_after (lit "https://") s.

Definition begins_url (s : str) : bool :=
  has_scheme s ||
  match s with
  | c :: s' => Ascii.eqb c "<" && has_scheme s'
  | [] => false
  end.

(** Replacing every URL by the placeholder, read from left to right: a URL
    starts where [begins_url] holds and runs to the next white space.
    [in_url] says that the characters read are the rest of a URL. *)
Fixpoint replace_urls (in_url : bool) (s : str) : str :=
  match s with
  | [] => []
  | c :: s' =>
    if isspace c then c :: replace_urls false s'
    else if in_url then replace_urls true s'
    else if begins_url s then url_token ++ replace_urls true s'
    else c :: replace_urls false s'
  end.

(** Lower case, then URLs replaced. *)
Definition normalized (s : str) : str := replace_urls false (lower s).

(** [p] is a substring of [s]. *)
Definition Substring (p s : str) : Prop :=
  exists before after, s = before ++ p ++ after.



(** The progress marker ["(N%)"]. *)
Definition progress_marker (n : nat) : str :=
  lit "(" ++ str_of_nat n ++ lit "%)".




(** A message the polling loop accepts as the final result: it matches the
    prompt, is not one of the old messages, is classified GRID and has
    exactly one image. *)
Definition accepted (prompt : str) (old_message_ids : list str)
           (message : DiscordMessage) : bool :=
  _match_mid_journey_prompt_ignoring_urls prompt (content message)
  && (if in_dec str_eq_dec (id message) old_message_ids then false else true)
  && (match _classify_midjourney_message message with
      | Some MIDJOURNEY_GRID => true
      | _ => false
      end)
  && (length (images message) =? 1).

(** [message] is the first accepted message from poll [tick] on, seen at
    poll [t]: the polls before [t] extract no accepted message, and so do
    the messages before it at poll [t]. *)
Definition first_accepted (self : MidJourneyAPI) (prompt : str)
           (old_message_ids : list str) (tick t : nat)
           (message : DiscordMessage) : Prop :=
  tick <= t
  /\ (forall t', tick <= t' < t ->
        exists earlier,
          extract_messages self t' = Ok earlier
          /\ find (accepted prompt old_message_ids) earlier = None)
  /\ exists messages,
       extract_messages self t = Ok messages
       /\ find (accepted prompt old_message_ids) messages = Some message.

(** The base name of a download URL, without its query string: the URL is
    [dir ++ name ++ query], where [dir] is empty or ends with ['/'], no
    ['/'] follows it, [name] has no ['?'] and [query] is empty or starts
    with ['?']. *)
Definition base_name (url name : str) : Prop :=
  exists dir query,
    url = dir ++ name ++ query
    /\ (dir = [] \/ exists d, dir = d ++ lit "/")
    /\ ~ In "/"%char (name ++ query)
    /\ ~ In "?"%char name
    /\ (query = [] \/ exists q, query = lit "?" ++ q).

(** The four paths written for a file name. *)
Definition quadrant_paths (name : str) : list str :=
  [lit "./images/" ++ name ++ lit "-0.png";
   lit "./images/" ++ name ++ lit "-1.png";
   lit "./images/" ++ name ++ lit "-2.png";
   lit "./images/" ++ name ++ lit "-3.png"].

(** Every image of a list can be saved under the path of its index, with
    the given metadata. *)
Definition saved (px meta : Type)
           (Image_save : Image px meta -> str -> meta -> res unit)
           (metadata : meta) (name : str) (quadrants : list (Image px meta))
  : Prop :=
  forall i q,
    nth_error quadrants i = Some q ->
    Image_save q (full_path_of name i) metadata = Ok tt.

(** ** A page and a network to run the code on *)

(** A 101 x 101 image whose pixels are their own coordinates. *)
Definition image_101 : Image (N * N) unit :=
  {| width := 101; height := 101; getpixel := fun x y => (x, y); info := tt |}.

Definition grid_url : str :=
  lit "https://cdn.example/attachments/11/22/a_cat_grid.png?ex=65&is=64".

(** A finished grid message and the same job while it is running. *)
Definition grid_element : WebElement :=
  {| get_id := Ok (Some (lit "chat-messages-11-103"));
     find_content :=
       Ok {| text := Ok (lit "**a cat <https://x.com/b>** - @alice (fast)") |};
     find_links := Ok [{| href := Ok (Some grid_url) |}] |}.

Definition progress_element : WebElement :=
  {| get_id := Ok (Some (lit "chat-messages-11-102"));
     find_content :=
       Ok {| text := Ok (lit "**a cat <https://x.com/b>** - @alice (46%) (fast)") |};
     find_links := Ok [{| href := Ok (Some grid_url) |}] |}.

(** A message without attachment, one whose node went stale before its id
    was read, and one without the content [div]. *)
Definition text_element : WebElement :=
  {| get_id := Ok (Some (lit "chat-messages-11-101"));
     find_content := Ok {| text := Ok (lit "hello") |};
     find_links := Ok [] |}.

Definition stale_element : WebElement :=
  {| get_id := Raise StaleElementReferenceException;
     find_content := Raise StaleElementReferenceException;
     find_links := Raise StaleElementReferenceException |}.

Definition bare_element : WebElement :=
  {| get_id := Ok (Some (lit "chat-messages-11-100"));
     find_content := Raise NoSuchElementException;
     find_links := Ok [] |}.

(** The page during three polls: the job is running, then finished. *)
Definition example_session : MidJourneyAPI :=
  {| driver := Some (fun tick =>
       match tick with
       | 0 => [text_element; stale_element]
       | 1 => [text_element; stale_element; progress_element]
       | _ => [text_element; stale_element; grid_element]
       end) |}.

(** The same finished page with a message that has no content [div]. *)
Definition bare_session : MidJourneyAPI :=
  {| driver := Some (fun _ => [grid_element; bare_element; text_element]) |}.

Definition example_prompt : str := lit "a cat https://x.com/a".

(** A server that answers every request with the given status and some
    bytes, and a decoder that takes these bytes for the image
    [image_101]. *)
Definition server (status : nat) (url : str) : res Response :=
  Ok {| status_code := status; response_content := lit "PNG..." |}.

Definition decoder (data : list ascii) : res (Image (N * N) unit) :=
  if str_eq_dec data (lit "PNG...") then Ok image_101
  else Raise UnidentifiedImageError.

(** A disk on which the directory can be made and every file written. *)
Definition disk_makedirs : res unit := Ok tt.

Definition disk_save (image : Image (N * N) unit) (full_path : str)
           (metadata : unit) : res unit := Ok tt.

(** A disk on which the third quadrant of [grid_url] cannot be written. *)
Definition third_save_fails (image : Image (N * N) unit) (full_path : str)
           (metadata : unit) : res unit :=
  if str_eq_dec full_path (lit "./images/a_cat_grid.png-2.png")
  then Raise OSError
  else Ok tt.

(** An image of 357913942 x 1 pixels, as [Image.new] makes it; its left
    half has 178956971 pixels. *)
Definition wide_image : Image unit unit :=
  {| width := 357913942; height := 1; getpixel := fun _ _ => tt; info := tt |}.

(** The bottom-right quadrant, the largest of the four, passes the
    decompression bomb check. *)
Definition quadrants_fit (px meta : Type) (image : Image px meta) : Prop :=
  (bomb_pixels (width image - width image / 2)
               (height image - height image / 2)
   <= 2 * MAX_IMAGE_PIXELS)%N.

(** ** Auxiliary functions of the proofs *)

(** [sep.join(pieces)] for a one-character separator. *)
Fixpoint join (sep : ascii) (pieces : list str) : str :=
  match pieces with
  | [] => []
  | [w] => w
  | w :: ws => w ++ sep :: join sep ws
  end.

(** What follows [https?://] at the start of a string, and what follows
    the head [<?https?://], read the way the pattern reads them. *)
Definition scheme_tail (s : str) : option str :=
  match strip_prefix (lit "http") s with
  | Some t =>
    strip_prefix (lit "://")
      match t with
      | c :: t' => if Ascii.eqb c "s" then t' else t
      | [] => t
      end
  | None => None
  end.

Definition url_tail (s : str) : option str :=
  scheme_tail
    match s with
    | c :: s' => if Ascii.eqb c "<" then s' else s
    | [] => s
    end.

(** The longest prefix of characters of a class, and what follows it. *)
Fixpoint drop_run (p : ascii -> bool) (s : str) : str :=
  match s with
  | [] => []
  | c :: s' => if p c then drop_run p s' else s
  end.

Fixpoint run_length (p : ascii -> bool) (s : str) : nat :=
  match s with
  | [] => 0
  | c :: s' => if p c then S (run_length p s') else 0
  end.


(** ** Further wording used in Part II *)

(** The URL pattern is found nowhere in the lower-cased text. *)
Definition url_free (s : str) : Prop :=
  Re.search url_pattern (lower s) = false.

(** A text put before another one: empty, or ending with white space; and
    a text put after another one: empty, or beginning with white space. *)
Definition left_context (s : str) : Prop :=
  s = [] \/ exists s0 sp, s = s0 ++ [sp] /\ isspace sp = true.

Definition right_context (s : str) : Prop :=
  s = [] \/ exists sp s0, s = sp :: s0 /\ isspace sp = true.






(** From poll [tick] up to poll [t], not included, the extraction succeeds
    and shows no accepted message. *)
Definition quiet_until (self : MidJourneyAPI) (prompt : str)
           (old_message_ids : list str) (tick t : nat) : Prop :=
  forall t', tick <= t' < t ->
    exists messages,
      extract_messages self t' = Ok messages
      /\ find (accepted prompt old_message_ids) messages = None.

(** An element that the extraction can read through: its id is read, or
    the reading fails with one of the three exceptions that are caught; and
    when an id is there, the content [div] is found, its text is read, and
    the image URL is read. *)
Definition readable (element : WebElement) : Prop :=
  match get_id element with
  | Ok (Some _) =>
    exists content_div text_content image_url,
      find_content element = Ok content_div
      /\ text content_div = Ok text_content
      /\ _get_image_url element = Ok image_url
  | Ok None => True
  | Raise AttributeError
  | Raise StaleElementReferenceException
  | Raise NoSuchElementException => True
  | Raise _ => False
  end.

(** The message made from an element, if any: the id, the text of the
    content [div] and the image URL, when the id and the URL are there. *)
Definition message_of (element : WebElement) : list DiscordMessage :=
  match get_id element, find_content element with
  | Ok (Some message_id), Ok content_div =>
    match text content_div, _get_image_url element with
    | Ok text_content, Ok (c :: url) =>
      [{| id := message_id; content := text_content; images := [c :: url] |}]
    | _, _ => []
    end
  | _, _ => []
  end.

(** ** [create_image] *)

(** What [send_keys] is given: [Keys.TAB], [Keys.RETURN] or a text. *)
Inductive key : Type :=
| TAB
| RETURN
| Text (s : str).

(** The commands that [create_image] gives to the browser, apart from the
    reading of the messages:
    - [AwaitChannel]: [WebDriverWait(...).until(...)] for the text area of
      the channel or a Close button;
    - [SwitchToWindow]: [switch_to.window(current_window_handle)];
    - [ClickHtml]: [find_element(By.CSS_SELECTOR, 'html').click()];
    - [SendKeys k]: [send_keys(k)] on the body or on the active element;
    - [AwaitAutocomplete]: [WebDriverWait(...).until(...)] for the
      autocomplete row. *)
Inductive action : Type :=
| AwaitChannel
| SwitchToWindow
| ClickHtml
| SendKeys (k : key)
| AwaitAutocomplete.

(** What [create_image] may raise: the [TimeoutException] of a wait,
    another exception of the browser, or an exception of [exn]. *)
Inductive failure : Type :=
| TimeoutException
| WebDriverException
| Raised (e : exn).

(** The browser: whether a command fails, given the commands carried out
    before it. *)
Definition Browser : Type := list action -> action -> option failure.

(** Carrying out commands in order, up to the first that fails; the
    commands carried out are added to [done]. *)
Fixpoint run_actions (browser : Browser) (todo done : list action)
  : option failure * list action :=
  match todo with
  | [] => (None, done)
  | a :: todo' =>
    match browser done a with
    | Some f => (Some f, done)
    | None => run_actions browser todo' (done ++ [a])
    end
  end.

(** How [create_image] ends: with the list of paths or with an
    exception. *)
Inductive attempt : Type :=
| Returned (image_paths : list str)
| Failed (f : failure).

Section CreateImage.

Variables (px meta : Type).
Variable requests_get : str -> res Response.
Variable Image_open : list ascii -> res (Image px meta).
Variable os_makedirs : res unit.
Variable Image_save : Image px meta -> str -> meta -> res unit.
Variable browser : Browser.

(** [self.create_image(prompt)]: the outcome ([None] while the polling
    loop is still running after [fuel] polls) and the commands carried out.
    The messages are read at poll 0 before the prompt is sent, and from
    poll 1 on by the loop. *)
Definition create_image (self : MidJourneyAPI) (prompt : str) (fuel : nat)
  : option (attempt * files px meta) * list action :=
  match driver self with
  | None =>
    (Some (Failed (Raised (ValueError (lit "WebDriver not initialized"))), []),
     [])
  | Some _ =>
    match run_actions browser
            [AwaitChannel; SwitchToWindow; ClickHtml; SendKeys TAB] [] with
    | (Some f, done) => (Some (Failed f, []), done)
    | (None, done) =>
      match extract_messages self 0 with
      | Raise e => (Some (Failed (Raised e), []), done)
      | Ok messages =>
        let old_message_ids := map id messages in
        match run_actions browser
                [SendKeys (Text (lit "/imagine")); AwaitAutocomplete;
                 SendKeys RETURN; SendKeys (Text prompt); SendKeys RETURN]
                done with
        | (Some f, done') => (Some (Failed f, []), done')
        | (None, done') =>
          (match _wait_for_image requests_get Image_open os_makedirs Image_save
                old_message_ids
                                 prompt self fuel 1 with
           | Some (Ok image_paths, fs) => Some (Returned image_paths, fs)
           | Some (Raise e, fs) => Some (Failed (Raised e), fs)
           | None => None
           end, done')
        end
      end
    end
  end.

End CreateImage.

(** The commands of a call of [create_image] that goes through. *)
Definition all_actions (prompt : str) : list action :=
  [AwaitChannel; SwitchToWindow; ClickHtml; SendKeys TAB;
   SendKeys (Text (lit "/imagine")); AwaitAutocomplete;
   SendKeys RETURN; SendKeys (Text prompt); SendKeys RETURN].

(** The commands given before the messages are read. *)
Definition opening_actions : list action :=
  [AwaitChannel; SwitchToWindow; ClickHtml; SendKeys TAB].

(** The same prompt sent a second time: the grid of the first run is on
    the page from the start, the grid of the second run comes later. *)
Definition second_grid_element : WebElement :=
  {| get_id := Ok (Some (lit "chat-messages-11-107"));
     find_content :=
       Ok {| text := Ok (lit "**a cat <https://x.com/b>** - @alice (fast)") |};
     find_links :=
       Ok [{| href := Ok (Some (lit "https://cdn.example/attachments/11/23/a_cat_2.png")) |}] |}.

Definition second_run_session : MidJourneyAPI :=
  {| driver := Some (fun tick =>
       match tick with
       | 0 | 1 => [grid_element; text_element]
       | 2 => [grid_element; text_element; progress_element]
       | _ => [grid_element; text_element; second_grid_element]
       end) |}.

(** A browser in which every command goes through. *)
Definition willing_browser : Browser := fun _ _ => None.

(* ================================================================== *)
(** * Part II: lemmas and theorems *)
(* ================================================================== *)

(** ** Strings *)

Lemma strip_prefix_Some (p s t : str) :
  strip_prefix p s = Some t <-> s = p ++ t.
Proof.
  revert s; induction p as [|a p IH]; intros s; simpl.
  - split; congruence.
  - destruct s as [|b s]; [split; discriminate|].
    destruct (Ascii.eqb_spec b a) as [->|Hne].
    + rewrite IH. split; congruence.
    + split; [discriminate|]. intros H; inversion H; congruence.
Qed.

Lemma strip_prefix_app (p q s : str) :
  strip_prefix (p ++ q) s =
  match strip_prefix p s with
  | Some t => strip_prefix q t
  | None => None
  end.
Proof.
  revert s; induction p as [|a p IH]; intros s; simpl; [reflexivity|].
  destruct s as [|b s]; [reflexivity|].
  destruct (Ascii.eqb b a); [apply IH | reflexivity].
Qed.

Lemma startswith_spec (p s : str) :
  startswith p s = true <-> exists t, s = p ++ t.
Proof.
  unfold startswith. destruct (strip_prefix p s) as [t|] eqn:E.
  - apply strip_prefix_Some in E. split; eauto.
  - split; [discriminate|]. intros [t Ht].
    apply strip_prefix_Some in Ht. congruence.
Qed.

Lemma contains_spec (s p : str) :
  contains s p = true <-> Substring p s.
Proof.
  unfold Substring. induction s as [|c s IH]; simpl.
  - rewrite orb_false_r, startswith_spec. split.
    + intros [t Ht]. exists [], t. exact Ht.
    + intros [b [a H]]. destruct b; [eauto|discriminate].
  - rewrite orb_true_iff, startswith_spec, IH. split.
    + intros [[t Ht]|[b [a H]]].
      * exists [], t. exact Ht.
      * exists (c :: b), a. simpl. congruence.
    + intros [b [a H]]. destruct b as [|c' b]; simpl in H.
      * left. eauto.
      * right. exists b, a. congruence.
Qed.

(** ** The matcher *)

Lemma rmatch_chars (A : Type) (p s : str) (k : str -> option A) :
  Re.rmatch (Re.chars p) s k =
  match strip_prefix p s with
  | Some t => k t
  | None => None
  end.
Proof.
  revert s; induction p as [|a p IH]; intros s; [reflexivity|].
  destruct p as [|a' p].
  - simpl. destruct s as [|b s]; [reflexivity|].
    destruct (Ascii.eqb b a); reflexivity.
  - change (Re.chars (a :: a' :: p)) with (Re.Cat (Re.Chr a) (Re.chars (a' :: p))).
    cbn [Re.rmatch]. destruct s as [|b s]; [reflexivity|].
    cbn [strip_prefix]. destruct (Ascii.eqb b a); [apply IH | reflexivity].
Qed.



Lemma search_here (r : Re.regex) (s : str) :
  Re.match_ r s <> None -> Re.search r s = true.
Proof.
  intros H. destruct s; simpl; destruct (Re.match_ r _); congruence.
Qed.

Lemma search_app (r : Re.regex) (before s : str) :
  Re.search r s = true -> Re.search r (before ++ s) = true.
Proof.
  intros H. induction before as [|c before IH]; [exact H|].
  simpl. destruct (Re.match_ r (c :: before ++ s)); [reflexivity | exact IH].
Qed.


Lemma rmatch_cat (A : Type) (r1 r2 : Re.regex) (s : str) (k : str -> option A) :
  Re.rmatch (Re.Cat r1 r2) s k = Re.rmatch r1 s (fun s1 => Re.rmatch r2 s1 k).
Proof. reflexivity. Qed.

Lemma rmatch_opt_chr (A : Type) (c : ascii) (s : str) (k : str -> option A) :
  Re.rmatch (Re.Opt (Re.Chr c)) s k =
  match s with
  | x :: s' =>
    if Ascii.eqb x c
    then match k s' with Some a => Some a | None => k s end
    else k s
  | [] => k s
  end.
Proof.
  simpl. destruct s as [|x s]; [reflexivity|].
  destruct (Ascii.eqb x c); reflexivity.
Qed.

(** ** The URL pattern *)

(** The head [<?https?://] of the pattern is read in one way only. *)
Lemma url_pattern_head (A : Type) (s : str) (k : str -> option A) :
  Re.rmatch url_pattern s k =
  match url_tail s with
  | Some r =>
    Re.rep1 nonspace r (fun s1 => Re.rmatch (Re.Opt (Re.Chr ">")) s1 k)
  | None => None
  end.
Proof.
  unfold url_pattern, url_tail, scheme_tail.
  rewrite rmatch_cat, rmatch_opt_chr.
  assert (Hs : forall t : str,
    Re.rmatch (Re.Cat (Re.Opt (Re.Chr "s"))
                (Re.Cat (Re.chars (lit "://"))
                   (Re.Cat (Re.Rep1 nonspace) (Re.Opt (Re.Chr ">"))))) t k =
    match strip_prefix (lit "://")
            match t with
            | c :: t' => if Ascii.eqb c "s" then t' else t
            | [] => t
            end with
    | Some r =>
      Re.rep1 nonspace r (fun s1 => Re.rmatch (Re.Opt (Re.Chr ">")) s1 k)
    | None => None
    end).
  { intros t. rewrite rmatch_cat, rmatch_opt_chr.
    destruct t as [|c t].
    - rewrite rmatch_cat, rmatch_chars. reflexivity.
    - destruct (Ascii.eqb_spec c "s") as [->|Hc].
      + rewrite !rmatch_cat, !rmatch_chars.
        change (strip_prefix (lit "://") ("s"%char :: t)) with (@None str).
        destruct (strip_prefix (lit "://") t); [|reflexivity].
        cbn [Re.rmatch]. destruct (Re.rep1 _ _ _); reflexivity.
      + rewrite rmatch_cat, rmatch_chars. reflexivity. }
  assert (Hh : forall t : str,
    Re.rmatch (Re.Cat (Re.chars (lit "http"))
                (Re.Cat (Re.Opt (Re.Chr "s"))
                   (Re.Cat (Re.chars (lit "://"))
                      (Re.Cat (Re.Rep1 nonspace) (Re.Opt (Re.Chr ">")))))) t k =
    match
      match strip_prefix (lit "http") t with
      | Some t0 =>
        strip_prefix (lit "://")
          match t0 with
          | c :: t' => if Ascii.eqb c "s" then t' else t0
          | [] => t0
          end
      | None => None
      end
    with
    | Some r =>
      Re.rep1 nonspace r (fun s1 => Re.rmatch (Re.Opt (Re.Chr ">")) s1 k)
    | None => None
    end).
  { intros t. rewrite rmatch_cat, rmatch_chars.
    destruct (strip_prefix (lit "http") t); [apply Hs | reflexivity]. }
  destruct s as [|c s]; [apply Hh|].
  destruct (Ascii.eqb_spec c "<") as [->|Hc]; [|apply Hh].
  rewrite !Hh.
  change (strip_prefix (lit "http") ("<"%char :: s)) with (@None str).
  destruct (strip_prefix (lit "http") s); [|reflexivity].
  destruct (strip_prefix (lit "://") _); [|reflexivity].
  destruct (Re.rep1 _ _ _); reflexivity.
Qed.

Lemma has_scheme_tail (s : str) :
  has_scheme s =
  match scheme_tail s with
  | Some (c :: _) => nonspace c
  | _ => false
  end.
Proof.
  unfold has_scheme, word_after, scheme_tail.
  change (lit "http://") with (lit "http" ++ lit "://").
  change (lit "https://") with (lit "http" ++ lit "s" ++ lit "://").
  rewrite !strip_prefix_app.
  destruct (strip_prefix (lit "http") s) as [t|]; [|reflexivity].
  rewrite strip_prefix_app.
  destruct t as [|c t]; [reflexivity|].
  destruct (Ascii.eqb_spec c "s") as [->|Hc].
  - change (strip_prefix (lit "://") ("s"%char :: t)) with (@None str).
    change (strip_prefix (lit "s") ("s"%char :: t)) with (Some t).
    reflexivity.
  - replace (strip_prefix (lit "s") (c :: t)) with (@None str).
    + apply orb_false_r.
    + simpl. destruct (Ascii.eqb_spec c "s"); congruence.
Qed.

Lemma scheme_tail_bracket (s : str) : scheme_tail ("<"%char :: s) = None.
Proof. reflexivity. Qed.

Lemma begins_url_tail (s : str) :
  begins_url s =
  match url_tail s with
  | Some (c :: _) => nonspace c
  | _ => false
  end.
Proof.
  unfold begins_url, url_tail. destruct s as [|c s].
  - rewrite has_scheme_tail. apply orb_false_r.
  - destruct (Ascii.eqb_spec c "<") as [->|Hc].
    + rewrite (has_scheme_tail ("<"%char :: s)), scheme_tail_bracket.
      simpl. apply has_scheme_tail.
    + rewrite has_scheme_tail. apply orb_false_r.
Qed.

(** The head of a URL has no white space in it. *)
Lemma url_tail_head (s r : str) :
  url_tail s = Some r ->
  exists h, s = h ++ r /\ h <> [] /\ forallb nonspace h = true.
Proof.
  unfold url_tail, scheme_tail. intros H.
  assert (Hs : forall s0 : str,
    match strip_prefix (lit "http") s0 with
    | Some t =>
      strip_prefix (lit "://")
        match t with
        | c :: t' => if Ascii.eqb c "s" then t' else t
        | [] => t
        end
    | None => None
    end = Some r ->
    exists h, s0 = h ++ r /\ h <> [] /\ forallb nonspace h = true).
  { intros s0 H0.
    destruct (strip_prefix (lit "http") s0) as [t|] eqn:Et; [|discriminate].
    apply strip_prefix_Some in Et. subst s0.
    destruct t as [|c t]; [discriminate|].
    destruct (Ascii.eqb_spec c "s") as [->|Hc];
      apply strip_prefix_Some in H0.
    - subst t. exists (lit "https://"). repeat split; discriminate.
    - rewrite H0. exists (lit "http://"). repeat split; discriminate. }
  destruct s as [|c s]; [apply Hs; exact H|].
  destruct (Ascii.eqb_spec c "<") as [->|Hc]; [|apply Hs; exact H].
  destruct (Hs s H) as (h & -> & Hne & Hall).
  exists ("<"%char :: h). repeat split; [discriminate|].
  simpl. exact Hall.
Qed.

Lemma drop_run_app (p : ascii -> bool) (h s : str) :
  forallb p h = true -> drop_run p (h ++ s) = drop_run p s.
Proof.
  induction h as [|c h IH]; simpl; [reflexivity|].
  intros H. apply andb_true_iff in H as [Hc Hh]. rewrite Hc. auto.
Qed.

Lemma drop_run_length (p : ascii -> bool) (s : str) :
  length (drop_run p s) <= length s.
Proof.
  induction s as [|c s IH]; simpl; [lia|].
  destruct (p c); simpl; lia.
Qed.

Lemma run_length_drop (p : ascii -> bool) (s : str) :
  length s - length (drop_run p s) = run_length p s.
Proof.
  induction s as [|c s IH]; [reflexivity|].
  pose proof (drop_run_length p s) as Hle.
  cbn [drop_run run_length]. destruct (p c); cbn [length]; lia.
Qed.

(** [[^\s]+>?] reads the whole run of characters that are not white
    space: the optional ['>'] finds nothing left to read. *)
Lemma rep1_nonspace_greedy (r : str) :
  Re.rep1 nonspace r
    (fun s1 => Re.rmatch (Re.Opt (Re.Chr ">")) s1 (fun rest => Some rest)) =
  match r with
  | c :: _ => if nonspace c then Some (drop_run nonspace r) else None
  | [] => None
  end.
Proof.
  induction r as [|c r IH]; [reflexivity|].
  cbn [Re.rep1 drop_run]. destruct (nonspace c) eqn:Hc; [|reflexivity].
  rewrite IH. destruct r as [|d r]; [reflexivity|].
  cbn [drop_run]. destruct (nonspace d) eqn:Hd; [reflexivity|].
  rewrite rmatch_opt_chr.
  destruct (Ascii.eqb_spec d ">") as [->|Hne]; [discriminate | reflexivity].
Qed.

(** What [re.match] finds for the URL pattern: where a URL begins, the
    whole run up to the next white space. *)
Lemma url_match (s : str) :
  Re.match_ url_pattern s =
  if begins_url s then Some (drop_run nonspace s) else None.
Proof.
  unfold Re.match_. rewrite url_pattern_head, begins_url_tail.
  destruct (url_tail s) as [r|] eqn:E; [|reflexivity].
  rewrite rep1_nonspace_greedy.
  destruct r as [|c r]; [reflexivity|].
  destruct (nonspace c); [|reflexivity].
  destruct (url_tail_head _ E) as (h & -> & _ & Hall).
  rewrite drop_run_app; auto.
Qed.

(** The URL pattern matches no empty string, as [Re.sub] requires. *)
Lemma url_match_nonempty (s rest : str) :
  Re.match_ url_pattern s = Some rest -> length rest < length s.
Proof.
  rewrite url_match, begins_url_tail.
  destruct (url_tail s) as [r|] eqn:E; [|discriminate].
  destruct r as [|c r]; [discriminate|].
  destruct (nonspace c) eqn:Hc; [|discriminate].
  intros H; inversion H; subst rest; clear H.
  destruct (url_tail_head _ E) as (h & -> & Hne & Hall).
  rewrite drop_run_app by auto. cbn [drop_run]. rewrite Hc.
  pose proof (drop_run_length nonspace r) as Hle.
  destruct h as [|x h]; [congruence|].
  rewrite length_app. cbn [length]. lia.
Qed.

Lemma begins_url_nonspace (c : ascii) (s : str) :
  begins_url (c :: s) = true -> isspace c = false.
Proof.
  rewrite begins_url_tail.
  destruct (url_tail (c :: s)) as [r|] eqn:E; [|discriminate].
  intros _. destruct (url_tail_head _ E) as (h & Hs & Hne & Hall).
  destruct h as [|x h]; [congruence|].
  simpl in Hs. inversion Hs; subst x. simpl in Hall.
  apply andb_true_iff in Hall as [Hc _].
  unfold nonspace in Hc. apply negb_true_iff in Hc. exact Hc.
Qed.

(** [re.sub] with the URL pattern is the replacement of the
    specification, both outside and inside a URL. *)
Lemma sub_from_replace_urls (s : str) :
  Re.sub_from url_pattern url_token 0 s = replace_urls false s /\
  Re.sub_from url_pattern url_token (run_length nonspace s) s
  = replace_urls true s.
Proof.
  induction s as [|c s [IH0 IH1]]; [split; reflexivity|].
  assert (H0 : Re.sub_from url_pattern url_token 0 (c :: s)
               = replace_urls false (c :: s)).
  { cbn [Re.sub_from replace_urls]. rewrite url_match.
    destruct (begins_url (c :: s)) eqn:Hb.
    - pose proof (begins_url_nonspace _ _ Hb) as Hc. rewrite Hc.
      cbn [drop_run]. unfold nonspace at 1. rewrite Hc. cbn [negb].
      rewrite run_length_drop, IH1. reflexivity.
    - rewrite IH0. destruct (isspace c); reflexivity. }
  split; [exact H0|].
  cbn [run_length]. unfold nonspace at 1.
  destruct (isspace c) eqn:Hc; cbn [negb].
  - rewrite H0. cbn [replace_urls]. rewrite Hc. reflexivity.
  - cbn [Re.sub_from replace_urls]. rewrite Hc. exact IH1.
Qed.

Lemma sub_url_normalized (s : str) :
  Re.sub url_pattern url_token (lower s) = normalized s.
Proof. apply sub_from_replace_urls. Qed.

(** ** Prompt matching *)

(** C1.  For every prompt and message content, the prompt matcher returns
    true if and only if, once both strings are lower-cased and every URL in
    them (an optional ['<'], [http://] or [https://], then characters up
    to the next white space) is replaced by the placeholder [<URL>], the
    prompt is a substring of the message content. *)
Theorem match_prompt_iff_normalized_substring (prompt message_content : str) :
  _match_mid_journey_prompt_ignoring_urls prompt message_content = true
  <-> Substring (normalized prompt) (normalized message_content).
Proof.
  unfold _match_mid_journey_prompt_ignoring_urls.
  rewrite !sub_url_normalized. apply contains_spec.
Qed.

(** ** Classification *)


(** The progress pattern matches at every marker ["(N%)"], N in 0..100. *)
Lemma progress_match_marker (n : nat) (after : str) :
  n <= 100 -> Re.match_ progress_regexp (progress_marker n ++ after) <> None.
Proof.
  intros Hn.
  do 101 (destruct n as [|n]; [vm_compute; discriminate|]).
  lia.
Qed.

Lemma search_progress_marker (n : nat) (s : str) :
  n <= 100 -> Substring (progress_marker n) s ->
  Re.search progress_regexp s = true.
Proof.
  intros Hn (before & after & ->).
  apply search_app, search_here, progress_match_marker, Hn.
Qed.






(** C2.  A message whose content contains a progress marker ["(N%)"], N an
    integer in 0..100 written in decimal, is not classified, whatever its
    images, its id and the rest of its content are. *)
Theorem classify_progress_is_none
        (n : nat) (before after ident : str) (imgs : list str) :
  n <= 100 ->
  _classify_midjourney_message
    {| id := ident;
       content := before ++ progress_marker n ++ after;
       images := imgs |} = None.
Proof.
  intros Hn. unfold _classify_midjourney_message. cbn [content].
  rewrite (search_progress_marker (n := n)); [reflexivity | exact Hn |].
  exists before, after. reflexivity.
Qed.

Lemma classify_progress_is_none_witness :
  42 <= 100 /\
  _classify_midjourney_message
    {| id := lit "7";
       content := lit "**a cat** - Image #2 <@alice> " ++ progress_marker 42
                  ++ lit " (fast)";
       images := [lit "https://cdn.example/grid.png"] |} = None.
Proof.
  split; [lia|].
  apply (@classify_progress_is_none 42 (lit "**a cat** - Image #2 <@alice> ")
           (lit " (fast)") (lit "7") [lit "https://cdn.example/grid.png"]).
  lia.
Defined.

(** C3.  A message without images is never classified: the result is
    neither UPSCALE nor GRID, whatever the content is. *)
Theorem classify_no_image_is_none (message : DiscordMessage) :
  images message = [] -> _classify_midjourney_message message = None.
Proof.
  intros H. unfold _classify_midjourney_message. rewrite H. cbn.
  destruct (Re.search progress_regexp (content message)); reflexivity.
Qed.

Lemma classify_no_image_is_none_witness :
  _classify_midjourney_message
    {| id := lit "7";
       content := lit "**a cat** - Image #2 <@alice>";
       images := [] |} = None.
Proof.
  apply (@classify_no_image_is_none
           {| id := lit "7";
              content := lit "**a cat** - Image #2 <@alice>";
              images := [] |}).
  reflexivity.
Defined.





(** ** URLs replaced by other URLs *)

Lemma word_after_app (p a v : str) :
  word_after p (a ++ v) =
  match strip_prefix p a with
  | Some (c :: _) => nonspace c
  | Some [] => match v with c :: _ => nonspace c | [] => false end
  | None =>
    match strip_prefix a p with
    | Some p' => word_after p' v
    | None => false
    end
  end.
Proof.
  revert a; induction p as [|x p IH]; intros a.
  - unfold word_after. simpl. destruct a; reflexivity.
  - destruct a as [|y a].
    + simpl. reflexivity.
    + unfold word_after in *. simpl.
      destruct (Ascii.eqb_spec y x) as [->|Hne].
      * rewrite Ascii.eqb_refl. apply IH.
      * destruct (Ascii.eqb_spec x y); [congruence | reflexivity].
Qed.

Lemma word_after_mismatch (p v : str) (c x : ascii) (t : str) :
  v = c :: t -> c <> x -> word_after (x :: p) v = false.
Proof.
  intros -> H. unfold word_after. simpl.
  destruct (Ascii.eqb_spec c x); [congruence | reflexivity].
Qed.













Lemma lower_app (a b : str) : lower (a ++ b) = lower a ++ lower b.
Proof. apply map_app. Qed.









(** ** Quadrants *)

Section Quadrants.

Variables (px meta : Type).

Lemma floor_half_le (n : N) : (floor_half n <= n)%N.
Proof.
  unfold floor_half. apply N.Div0.div_le_upper_bound. lia.
Qed.

(** When [crop] returns a region and which one. *)
Lemma crop_iff (im q : Image px meta) (x0 y0 x1 y1 : N) :
  crop im (x0, y0, x1, y1) = Ok q
  <-> (x0 <= x1)%N /\ (y0 <= y1)%N
      /\ (bomb_pixels (x1 - x0) (y1 - y0) <= 2 * MAX_IMAGE_PIXELS)%N
      /\ q = region im x0 y0 x1 y1.
Proof.
  unfold crop, region.
  destruct (N.ltb_spec x1 x0) as [Hx|Hx].
  - split; [discriminate|]. intros (H & _). lia.
  - destruct (N.ltb_spec y1 y0) as [Hy|Hy].
    + split; [discriminate|]. intros (_ & H & _). lia.
    + destruct (N.ltb_spec (2 * MAX_IMAGE_PIXELS)
                           (bomb_pixels (x1 - x0) (y1 - y0))) as [Hb|Hb].
      * split; [discriminate|]. intros (_ & _ & H & _). lia.
      * split.
        -- intros H. inversion H. auto.
        -- intros (_ & _ & _ & ->). reflexivity.
Qed.

Lemma half_le_rest (n : N) : (n / 2 <= n - n / 2)%N.
Proof.
  pose proof (N.Div0.div_mod n 2) as E.
  assert (U : (n mod 2 < 2)%N) by (apply N.mod_upper_bound; discriminate).
  revert E U. generalize (n / 2)%N (n mod 2)%N. intros q r E U. lia.
Qed.

Lemma bomb_pixels_le (w h w' h' : N) :
  (w <= w')%N -> (h <= h')%N -> (bomb_pixels w h <= bomb_pixels w' h')%N.
Proof.
  intros Hw Hh. unfold bomb_pixels. apply N.mul_le_mono; lia.
Qed.

(** Splitting succeeds exactly when the largest quadrant passes the
    decompression bomb check, and then gives the four regions that meet at
    (W/2, H/2). *)
Lemma split_in_four_iff (image : Image px meta) (qs : list (Image px meta)) :
  _split_in_four image = Ok qs
  <-> quadrants_fit image /\ qs = quadrants_of image.
Proof.
  unfold _split_in_four, quadrants_fit, quadrants_of, floor_half. cbv zeta.
  set (W := width image). set (H := height image). clearbody W H.
  assert (HW : (W / 2 <= W)%N) by apply floor_half_le.
  assert (HH : (H / 2 <= H)%N) by apply floor_half_le.
  pose proof (half_le_rest W) as HW2. pose proof (half_le_rest H) as HH2.
  set (w := (W / 2)%N) in *. set (h := (H / 2)%N) in *. clearbody w h.
  split.
  - destruct (crop image (0, 0, w, h)%N) as [q0|e] eqn:E0;
      cbn [bind]; [|discriminate].
    destruct (crop image (w, 0, W, h)%N) as [q1|e] eqn:E1;
      cbn [bind]; [|discriminate].
    destruct (crop image (0, h, w, H)%N) as [q2|e] eqn:E2;
      cbn [bind]; [|discriminate].
    destruct (crop image (w, h, W, H)%N) as [q3|e] eqn:E3;
      cbn [bind]; [|discriminate].
    apply crop_iff in E0 as (_ & _ & _ & ->), E1 as (_ & _ & _ & ->),
                      E2 as (_ & _ & _ & ->), E3 as (_ & _ & Hb & ->).
    intros Hq. inversion Hq. split; [exact Hb | reflexivity].
  - intros [Hfit ->].
    rewrite (proj2 (crop_iff image (region image 0 0 w h) 0 0 w h)),
            (proj2 (crop_iff image (region image w 0 W h) w 0 W h)),
            (proj2 (crop_iff image (region image 0 h w H) 0 h w H)),
            (proj2 (crop_iff image (region image w h W H) w h W H));
      [reflexivity | | | |];
      (split; [lia|]); (split; [lia|]); (split; [|reflexivity]);
      (eapply N.le_trans; [|exact Hfit]); apply bomb_pixels_le; lia.
Qed.

(** An image that passes the decompression bomb check itself, as every
    image that [Image.open] returns does, is one whose quadrants fit. *)
Lemma quadrants_fit_image (image : Image px meta) :
  (bomb_pixels (width image) (height image) <= 2 * MAX_IMAGE_PIXELS)%N ->
  quadrants_fit image.
Proof.
  intros H. unfold quadrants_fit.
  eapply N.le_trans; [|exact H]. apply bomb_pixels_le; apply N.le_sub_l.
Qed.

(** C5, amended.  Splitting an image of width W and height H whose largest
    quadrant, (W - W/2) x (H - H/2) with a side of 0 counted as 1, holds no
    more than 178956970 pixels, does not fail and gives exactly four
    images, in the order top-left, top-right, bottom-left, bottom-right:
    their sizes are (W/2, H/2), (W - W/2, H/2), (W/2, H - H/2) and
    (W - W/2, H - H/2) with / the integer quotient, each shows the pixels
    of the source from its own corner on, and the four pixel counts add up
    to W * H.  For W = H = 101 the sizes are 50x50, 51x50, 50x51 and
    51x51. *)
Theorem split_in_four_quadrants (image : Image px meta) :
  quadrants_fit image ->
  let W := width image in
  let H := height image in
  exists q0 q1 q2 q3 : Image px meta,
    _split_in_four image = Ok [q0; q1; q2; q3]
    /\ size q0 = (W / 2, H / 2)%N
    /\ size q1 = (W - W / 2, H / 2)%N
    /\ size q2 = (W / 2, H - H / 2)%N
    /\ size q3 = (W - W / 2, H - H / 2)%N
    /\ (forall x y, getpixel q0 x y = getpixel image x y)
    /\ (forall x y, getpixel q1 x y = getpixel image (x + W / 2)%N y)
    /\ (forall x y, getpixel q2 x y = getpixel image x (y + H / 2)%N)
    /\ (forall x y,
           getpixel q3 x y = getpixel image (x + W / 2)%N (y + H / 2)%N)
    /\ (area q0 + area q1 + area q2 + area q3 = W * H)%N
    /\ (W = 101%N -> H = 101%N ->
        map (@size px meta) [q0; q1; q2; q3]
        = [(50, 50); (51, 50); (50, 51); (51, 51)]%N).
Proof.
  intros Hfit W H.
  pose proof (floor_half_le W) as HW. pose proof (floor_half_le H) as HH.
  pose proof (proj2 (split_in_four_iff image (quadrants_of image))
                    (conj Hfit eq_refl)) as Hs.
  unfold quadrants_of in Hs. fold W H in Hs.
  do 4 eexists. split; [exact Hs|].
  unfold size, area, region, floor_half in *. cbn [width height getpixel].
  rewrite !N.sub_0_r.
  repeat split; try (intros; rewrite ?N.add_0_r; reflexivity).
  - nia.
  - intros -> ->. reflexivity.
Qed.

End Quadrants.

(** C5, counterexample.  An image of 357913942 x 1 pixels is not split:
    the left half, 178956971 pixels wide, is more than [crop] accepts, and
    [_split_in_four] raises [DecompressionBombError]. *)
Lemma split_in_four_wide_image_raises :
  size wide_image = (357913942, 1)%N
  /\ _split_in_four wide_image = Raise DecompressionBombError.
Proof.
  split; vm_compute; reflexivity.
Qed.

Lemma image_101_fits : quadrants_fit image_101.
Proof. vm_compute. discriminate. Qed.

Lemma split_in_four_quadrants_witness :
  exists qs : list (Image (N * N) unit),
    _split_in_four image_101 = Ok qs
    /\ map (@size _ _) qs = [(50, 50); (51, 50); (50, 51); (51, 51)]%N.
Proof.
  destruct (split_in_four_quadrants image_101_fits)
    as (q0 & q1 & q2 & q3 & Hs & _ & _ & _ & _ & _ & _ & _ & _ & _ & H101).
  exists [q0; q1; q2; q3]. split; [exact Hs|].
  apply H101; reflexivity.
Defined.

(** ** File names *)

Lemma split_nonempty (sep : ascii) (s : str) : split sep s <> [].
Proof.
  destruct s as [|c s]; simpl; [discriminate|].
  destruct (Ascii.eqb c sep); [discriminate|].
  destruct (split sep s); discriminate.
Qed.

(** Splitting and joining again gives the string back. *)
Lemma join_split (sep : ascii) (s : str) : join sep (split sep s) = s.
Proof.
  induction s as [|c s IH]; [reflexivity|].
  pose proof (split_nonempty sep s) as Hne. cbn [split].
  destruct (Ascii.eqb_spec c sep) as [->|Hc].
  - destruct (split sep s) as [|w ws]; [congruence|].
    cbn [join app]. cbn [join] in IH. rewrite IH. reflexivity.
  - destruct (split sep s) as [|w ws]; [congruence|].
    destruct ws as [|w' ws]; cbn [join app] in *; rewrite IH; reflexivity.
Qed.

(** No piece of a split contains the separator. *)
Lemma split_pieces (sep : ascii) (s : str) :
  Forall (fun w => ~ In sep w) (split sep s).
Proof.
  induction s as [|c s IH]; cbn [split].
  - constructor; [intros [] | constructor].
  - destruct (Ascii.eqb_spec c sep) as [->|Hc].
    + constructor; [intros [] | exact IH].
    + destruct (split sep s) as [|w ws]; [repeat constructor; intros [H|[]]; congruence|].
      inversion IH as [|? ? Hw Hws]; subst. constructor; [|exact Hws].
      intros [H|H]; [congruence | auto].
Qed.

Lemma join_hd (sep : ascii) (pieces : list str) :
  exists rest,
    join sep pieces = hd [] pieces ++ rest
    /\ (rest = [] \/ exists q, rest = sep :: q).
Proof.
  destruct pieces as [|w [|w' ws]].
  - exists []. auto.
  - exists []. split; [symmetry; apply app_nil_r | auto].
  - exists (sep :: join sep (w' :: ws)). split; [reflexivity | eauto].
Qed.

Lemma join_last (sep : ascii) (pieces : list str) :
  exists dir,
    join sep pieces = dir ++ last pieces []
    /\ (dir = [] \/ exists d, dir = d ++ [sep]).
Proof.
  induction pieces as [|w ws (dir & Hj & Hdir)].
  - exists []. auto.
  - destruct ws as [|w' ws].
    + exists []. auto.
    + exists (w ++ sep :: dir). split.
      * change (last (w :: w' :: ws) []) with (last (w' :: ws) []).
        cbn [join] in *. rewrite Hj, <- app_assoc. reflexivity.
      * right. destruct Hdir as [->|[d ->]].
        -- exists w. reflexivity.
        -- exists (w ++ sep :: d). rewrite <- app_assoc. reflexivity.
Qed.

Lemma last_in (A : Type) (l : list A) (d : A) : l <> [] -> In (last l d) l.
Proof.
  induction l as [|x l IH]; [congruence|]. intros _.
  destruct l as [|y l]; [left; reflexivity|].
  right. apply IH. discriminate.
Qed.

(** The file name that the code computes is the base name of the URL,
    without the query string. *)
Lemma file_name_of_base_name (url : str) :
  base_name url (file_name_of url).
Proof.
  unfold file_name_of, base_name.
  set (seg := last (split "/" url) []).
  destruct (join_last "/" (split "/" url)) as (dir & Hj & Hdir).
  rewrite join_split in Hj. fold seg in Hj.
  destruct (join_hd "?" (split "?" seg)) as (query & Hq & Hquery).
  rewrite join_split in Hq.
  assert (Hseg : ~ In "/"%char seg).
  { pose proof (split_pieces "/" url) as Hall.
    rewrite Forall_forall in Hall. apply Hall.
    apply last_in, split_nonempty. }
  assert (Hname : ~ In "?"%char (hd [] (split "?" seg))).
  { pose proof (split_pieces "?" seg) as Hall.
    pose proof (split_nonempty "?" seg) as Hne.
    destruct (split "?" seg) as [|w ws]; [congruence|].
    inversion Hall; assumption. }
  exists dir, query. repeat split; auto.
  - rewrite <- Hq. exact Hj.
  - rewrite <- Hq. exact Hseg.
Qed.

(** ** The polling loop *)

Section PollingFacts.

Variables (px meta : Type).
Variable requests_get : str -> res Response.
Variable Image_open : list ascii -> res (Image px meta).
Variable os_makedirs : res unit.
Variable Image_save : Image px meta -> str -> meta -> res unit.
Variables (old_message_ids : list str) (prompt : str).
Variable self : MidJourneyAPI.

(** The [for] loop returns at the first accepted message, if any. *)
Lemma scan_messages_find (messages : list DiscordMessage) (fs : files px meta) :
  scan_messages requests_get Image_open os_makedirs Image_save
        old_message_ids prompt messages fs
  = option_map (fun m => download_and_split requests_get Image_open os_makedirs Image_save
        m fs) (find (accepted prompt old_message_ids) messages).
Proof.
  induction messages as [|m later IH]; [reflexivity|].
  cbn [scan_messages find]. unfold accepted. rewrite IH.
  destruct (_match_mid_journey_prompt_ignoring_urls prompt (content m));
    [|reflexivity].
  destruct (in_dec str_eq_dec (id m) old_message_ids); [reflexivity|].
  destruct (_classify_midjourney_message m) as [[]|];
    destruct (images m) as [|u [|u' us]]; reflexivity.
Qed.

Lemma accepted_inv (m : DiscordMessage) :
  accepted prompt old_message_ids m = true ->
  _match_mid_journey_prompt_ignoring_urls prompt (content m) = true
  /\ ~ In (id m) old_message_ids
  /\ _classify_midjourney_message m = Some MIDJOURNEY_GRID
  /\ exists url, images m = [url].
Proof.
  unfold accepted. rewrite !andb_true_iff. intros [[[Hm Hid] Hc] Hl].
  repeat split.
  - exact Hm.
  - destruct (in_dec str_eq_dec (id m) old_message_ids);
      [discriminate | assumption].
  - destruct (_classify_midjourney_message m) as [[]|];
      [discriminate | reflexivity | discriminate].
  - destruct (images m) as [|u [|u' us]]; try discriminate. eauto.
Qed.

(** The loop returns what the first accepted message delivers. *)
Lemma wait_first_accepted (fuel tick t : nat) (m : DiscordMessage) :
  first_accepted self prompt old_message_ids tick t m ->
  t < tick + fuel ->
  _wait_for_image requests_get Image_open os_makedirs Image_save
        old_message_ids prompt self fuel tick
        = Some (download_and_split requests_get Image_open os_makedirs Image_save
        m []).
Proof.
  revert tick. induction fuel as [|fuel IH]; intros tick (Hle & Hbefore & Hat) Ht;
    [lia|].
  cbn [_wait_for_image]. destruct (Nat.eq_dec tick t) as [->|Hne].
  - destruct Hat as (messages & -> & Hfind).
    rewrite scan_messages_find, Hfind. reflexivity.
  - destruct (Hbefore tick) as (earlier & -> & Hnone); [lia|].
    rewrite scan_messages_find, Hnone. cbn [option_map].
    apply IH; [|lia]. split; [lia|]. split; [|exact Hat].
    intros t' Ht'. apply Hbefore. lia.
Qed.

(** Whatever the loop returns comes from an accepted message or from a
    failed extraction. *)
Lemma wait_inv (fuel tick : nat) (outcome : res (list str) * files px meta) :
  _wait_for_image requests_get Image_open os_makedirs Image_save
        old_message_ids prompt self fuel tick = Some outcome ->
  exists t, tick <= t < tick + fuel /\
    ((exists e, extract_messages self t = Raise e /\ outcome = (Raise e, []))
     \/ (exists m, first_accepted self prompt old_message_ids tick t m
                   /\ outcome = download_and_split requests_get Image_open os_makedirs Image_save
                         m [])).
Proof.
  revert tick. induction fuel as [|fuel IH]; intros tick; [discriminate|].
  cbn [_wait_for_image].
  destruct (extract_messages self tick) as [messages|e] eqn:Ex.
  - rewrite scan_messages_find.
    destruct (find (accepted prompt old_message_ids) messages) as [m|] eqn:Hfind; cbn [option_map].
    + intros H; inversion H; subst outcome; clear H.
      exists tick. split; [lia|]. right. exists m. split; [|reflexivity].
      split; [lia|]. split; [intros t' Ht'; lia|]. eauto.
    + intros H. apply IH in H as (t & Ht & H). exists t. split; [lia|].
      destruct H as [H|(m & (Hle & Hbefore & Hat) & Hout)]; [left; exact H|].
      right. exists m. split; [|exact Hout].
      split; [lia|]. split; [|exact Hat].
      intros t' Ht'. destruct (Nat.eq_dec t' tick) as [->|Hne]; [eauto|].
      apply Hbefore. lia.
  - intros H; inversion H; subst outcome; clear H.
    exists tick. split; [lia|]. left. eauto.
Qed.

(** How the saving loop ends: either every quadrant was saved, and the
    paths are returned; or one save raised, and the files written before
    it are left. *)
Lemma save_loop_cases (metadata : meta) (name : str)
      (quadrants : list (Image px meta)) :
  forall (i : nat) (image_paths : list str) (fs : files px meta),
  let all := combine (map (full_path_of name) (seq i (length quadrants)))
                     quadrants in
  ((forall j q, nth_error quadrants j = Some q ->
                Image_save q (full_path_of name (i + j)) metadata = Ok tt)
   /\ save_loop Image_save metadata name i quadrants image_paths fs
      = (Ok (image_paths ++ map fst all), fs ++ all))
  \/ (exists k q e,
        nth_error quadrants k = Some q
        /\ Image_save q (full_path_of name (i + k)) metadata = Raise e
        /\ save_loop Image_save metadata name i quadrants image_paths fs
           = (Raise e, fs ++ firstn k all)).
Proof.
  induction quadrants as [|q0 quadrants IH]; intros i image_paths fs all.
  - left. split; [intros [|j] q H; discriminate H|].
    subst all. cbn. rewrite !app_nil_r. reflexivity.
  - subst all. cbn [save_loop length seq map combine].
    destruct (Image_save q0 (full_path_of name i) metadata) as [[]|e] eqn:E0.
    + destruct (IH (S i) (image_paths ++ [full_path_of name i])
                   (fs ++ [(full_path_of name i, q0)]))
        as [[Hall Heq]|(k & q & e & Hk & He & Heq)].
      * left. split.
        -- intros [|j] q Hq; cbn in Hq.
           ++ inversion Hq; subst q. rewrite Nat.add_0_r. exact E0.
           ++ rewrite Nat.add_succ_r. apply (Hall j q Hq).
        -- rewrite Heq, <- !app_assoc. reflexivity.
      * right. exists (S k), q, e. split; [exact Hk|]. split.
        -- rewrite Nat.add_succ_r. exact He.
        -- rewrite Heq, <- !app_assoc. reflexivity.
    + right. exists 0, q0, e. split; [reflexivity|]. split.
      * rewrite Nat.add_0_r. exact E0.
      * cbn. rewrite app_nil_r. reflexivity.
Qed.

(** The body of the innermost [if], step by step. *)
Lemma deliver_cases (m : DiscordMessage) (url : str) (fs : files px meta) :
  images m = [url] ->
  download_and_split requests_get Image_open os_makedirs Image_save m fs
  = match requests_get url with
    | Raise e => (Raise e, fs)
    | Ok resp =>
      match Image_open (response_content resp) with
      | Raise e => (Raise e, fs)
      | Ok img =>
        match _split_in_four img, os_makedirs with
        | Raise e, _ => (Raise e, fs)
        | Ok _, Raise e => (Raise e, fs)
        | Ok quadrants, Ok _ =>
          save_loop Image_save (info img) (file_name_of url) 0 quadrants [] fs
        end
      end
    end.
Proof.
  intros Himg. unfold download_and_split. rewrite Himg.
  destruct (requests_get url) as [resp|e]; cbn [bind]; [|reflexivity].
  destruct (Image_open (response_content resp)) as [img|e]; cbn [bind];
    [|reflexivity].
  destruct (_split_in_four img) as [quadrants|e]; cbn [bind]; [|reflexivity].
  destruct os_makedirs as [[]|e]; reflexivity.
Qed.

Lemma quadrant_paths_seq (name : str) :
  map (full_path_of name) (seq 0 4) = quadrant_paths name.
Proof.
  reflexivity.
Qed.

(** What an accepted message delivers when the download, the decoding,
    the splitting, the making of the directory and the four saves all
    succeed. *)
Lemma deliver_ok (m : DiscordMessage) (url : str) (resp : Response)
      (img : Image px meta) (fs : files px meta) :
  images m = [url] ->
  requests_get url = Ok resp ->
  Image_open (response_content resp) = Ok img ->
  quadrants_fit img ->
  os_makedirs = Ok tt ->
  saved Image_save (info img) (file_name_of url) (quadrants_of img) ->
  download_and_split requests_get Image_open os_makedirs Image_save m fs
  = (Ok (quadrant_paths (file_name_of url)),
     fs ++ combine (quadrant_paths (file_name_of url)) (quadrants_of img)).
Proof.
  intros Himg Hget Hopen Hfit Hdir Hsaved.
  rewrite (deliver_cases m fs Himg), Hget, Hopen, Hdir.
  rewrite (proj2 (split_in_four_iff img (quadrants_of img)) (conj Hfit eq_refl)).
  destruct (save_loop_cases (info img) (file_name_of url) (quadrants_of img)
                            0 [] fs)
    as [[_ Heq]|(k & q & e & Hk & He & _)].
  - rewrite Heq. change (length (quadrants_of img)) with 4.
    rewrite quadrant_paths_seq. reflexivity.
  - cbn [Nat.add] in He. rewrite (Hsaved k q Hk) in He. discriminate He.
Qed.

(** When an accepted message delivers paths, every step has succeeded. *)
Lemma deliver_inv (m : DiscordMessage) (url : str) (fs fs' : files px meta)
      (paths : list str) :
  images m = [url] ->
  download_and_split requests_get Image_open os_makedirs Image_save m fs
  = (Ok paths, fs') ->
  exists resp img,
    requests_get url = Ok resp
    /\ Image_open (response_content resp) = Ok img
    /\ quadrants_fit img
    /\ os_makedirs = Ok tt
    /\ saved Image_save (info img) (file_name_of url) (quadrants_of img)
    /\ paths = quadrant_paths (file_name_of url)
    /\ fs' = fs ++ combine (quadrant_paths (file_name_of url))
                           (quadrants_of img).
Proof.
  intros Himg. rewrite (deliver_cases m fs Himg).
  destruct (requests_get url) as [resp|e]; [|discriminate].
  destruct (Image_open (response_content resp)) as [img|e] eqn:Hopen;
    [|discriminate].
  destruct (_split_in_four img) as [quadrants|e] eqn:Hsplit; [|discriminate].
  apply split_in_four_iff in Hsplit as [Hfit ->].
  destruct os_makedirs as [[]|e] eqn:Hdir; [|discriminate].
  destruct (save_loop_cases (info img) (file_name_of url) (quadrants_of img)
                            0 [] fs)
    as [[Hall Heq]|(k & q & e & _ & _ & Heq)];
    rewrite Heq; [|discriminate].
  change (length (quadrants_of img)) with 4. rewrite quadrant_paths_seq.
  intros H. inversion H; subst paths fs'.
  exists resp, img. repeat split; auto.
Qed.

(** C7.  The polling loop returns paths only for a message that it
    accepted: one that matches the prompt, whose id is not among the old
    ids, that is classified GRID and has exactly one image, and before
    which no message was accepted.  The image was downloaded and decoded,
    its four quadrants were written, in order, to
    [./images/<name>-0.png] .. [./images/<name>-3.png], [name] being the
    base name of the URL without its query string, and exactly these four
    paths are returned.  Conversely, once such a message is on the page,
    its image can be downloaded, decoded and split, the directory can be
    made and the four quadrants can be saved, the loop returns in this way
    as soon as it has polls enough to reach the message. *)
Theorem wait_for_image_accepts (fuel tick : nat) :
  (forall (paths : list str) (fs : files px meta),
      _wait_for_image requests_get Image_open os_makedirs Image_save
                      old_message_ids prompt self
                      fuel tick = Some (Ok paths, fs) ->
      exists t m url name resp img q0 q1 q2 q3,
        tick <= t < tick + fuel
        /\ first_accepted self prompt old_message_ids tick t m
        /\ _match_mid_journey_prompt_ignoring_urls prompt (content m) = true
        /\ ~ In (id m) old_message_ids
        /\ _classify_midjourney_message m = Some MIDJOURNEY_GRID
        /\ images m = [url]
        /\ requests_get url = Ok resp
        /\ Image_open (response_content resp) = Ok img
        /\ _split_in_four img = Ok [q0; q1; q2; q3]
        /\ base_name url name
        /\ paths = quadrant_paths name
        /\ fs = combine (quadrant_paths name) [q0; q1; q2; q3])
  /\
  (forall t m url resp img,
      first_accepted self prompt old_message_ids tick t m ->
      t < tick + fuel ->
      images m = [url] ->
      requests_get url = Ok resp ->
      Image_open (response_content resp) = Ok img ->
      quadrants_fit img ->
      os_makedirs = Ok tt ->
      saved Image_save (info img) (file_name_of url) (quadrants_of img) ->
      exists name q0 q1 q2 q3,
        base_name url name
        /\ _split_in_four img = Ok [q0; q1; q2; q3]
        /\ _wait_for_image requests_get Image_open os_makedirs Image_save
                           old_message_ids prompt self fuel tick
           = Some (Ok (quadrant_paths name),
                   combine (quadrant_paths name) [q0; q1; q2; q3])).
Proof.
  split.
  - intros paths fs H.
    apply wait_inv in H as (t & Ht & [(e & _ & He)|(m & Hfirst & Hout)]);
      [discriminate|].
    pose proof Hfirst as (_ & _ & messages & _ & Hfind).
    apply find_some in Hfind as [_ Hacc].
    apply accepted_inv in Hacc as (Hmatch & Hid & Hclass & url & Himg).
    symmetry in Hout.
    destruct (deliver_inv _ _ Himg Hout)
      as (resp & img & Hget & Hopen & Hfit & _ & _ & -> & ->).
    pose proof (proj2 (split_in_four_iff img (quadrants_of img))
                      (conj Hfit eq_refl)) as Hsplit.
    unfold quadrants_of in Hsplit.
    exists t, m, url, (file_name_of url), resp, img.
    do 4 eexists.
    split; [exact Ht|]. split; [exact Hfirst|].
    repeat (split; [eassumption|]).
    split; [apply file_name_of_base_name|]. split; reflexivity.
  - intros t m url resp img Hfirst Ht Himg Hget Hopen Hfit Hdir Hsaved.
    pose proof (proj2 (split_in_four_iff img (quadrants_of img))
                      (conj Hfit eq_refl)) as Hsplit.
    unfold quadrants_of in Hsplit.
    exists (file_name_of url). do 4 eexists.
    split; [apply file_name_of_base_name|]. split; [exact Hsplit|].
    rewrite (wait_first_accepted fuel Hfirst Ht).
    rewrite (deliver_ok m [] Himg Hget Hopen Hfit Hdir Hsaved). reflexivity.
Qed.

(** C8, amended.  When the request for the image of the accepted message
    raises, or the body of the response, whatever its status, cannot be
    decoded as an image, the invocation ends with that exception: no
    path is returned and no file has been written. *)
Theorem wait_for_image_download_failure
        (fuel tick t : nat) (m : DiscordMessage) (url : str) (e : exn) :
  first_accepted self prompt old_message_ids tick t m ->
  t < tick + fuel ->
  images m = [url] ->
  (requests_get url = Raise e
   \/ exists resp, requests_get url = Ok resp
                   /\ Image_open (response_content resp) = Raise e) ->
  _wait_for_image requests_get Image_open os_makedirs Image_save
        old_message_ids prompt self
                  fuel tick = Some (Raise e, []).
Proof.
  intros Hfirst Ht Himg Hfail.
  rewrite (wait_first_accepted fuel Hfirst Ht).
  unfold download_and_split. rewrite Himg.
  destruct Hfail as [->|(resp & -> & Hopen)]; cbn [bind]; [reflexivity|].
  rewrite Hopen. reflexivity.
Qed.

End PollingFacts.

(** *** The loop on the example page *)

Lemma example_first_accepted :
  first_accepted example_session example_prompt [lit "chat-messages-11-101"]
                 0 2
                 {| id := lit "chat-messages-11-103";
                    content := lit "**a cat <https://x.com/b>** - @alice (fast)";
                    images := [grid_url] |}.
Proof.
  split; [lia|]. split.
  - intros t' Ht'.
    destruct t' as [|[|t']]; [| |lia]; eexists; split; reflexivity.
  - eexists. split; reflexivity.
Qed.

Lemma wait_for_image_accepts_witness :
  exists name q0 q1 q2 q3,
    base_name grid_url name
    /\ _split_in_four image_101 = Ok [q0; q1; q2; q3]
    /\ _wait_for_image (server 200) decoder disk_makedirs disk_save
          [lit "chat-messages-11-101"]
                       example_prompt example_session 5 0
       = Some (Ok (quadrant_paths name),
               combine (quadrant_paths name) [q0; q1; q2; q3]).
Proof.
  apply (proj2 (wait_for_image_accepts (server 200) decoder disk_makedirs disk_save
                  [lit "chat-messages-11-101"] example_prompt
                  example_session 5 0)
               2 _ grid_url
               {| status_code := 200; response_content := lit "PNG..." |}
               image_101 example_first_accepted).
  - lia.
  - reflexivity.
  - reflexivity.
  - reflexivity.
  - exact image_101_fits.
  - reflexivity.
  - intros i q _. reflexivity.
Defined.

(** The paths of the example, written out. *)
Example example_paths :
  option_map fst
    (_wait_for_image (server 200) decoder disk_makedirs disk_save
          [lit "chat-messages-11-101"]
                     example_prompt example_session 5 0)
  = Some (Ok [lit "./images/a_cat_grid.png-0.png";
              lit "./images/a_cat_grid.png-1.png";
              lit "./images/a_cat_grid.png-2.png";
              lit "./images/a_cat_grid.png-3.png"]).
Proof. reflexivity. Qed.

(** C8, counterexample.  The server answers 404 with a body that decodes as
    an image: the status is never looked at, the loop accepts the message,
    writes the four quadrants and returns their paths. *)
Lemma download_failure_not_fatal :
  (forall url, exists resp,
      server 404 url = Ok resp /\ status_code resp = 404)
  /\ exists q0 q1 q2 q3,
       _wait_for_image (server 404) decoder disk_makedirs disk_save
             [lit "chat-messages-11-101"]
                       example_prompt example_session 5 0
       = Some (Ok [lit "./images/a_cat_grid.png-0.png";
                   lit "./images/a_cat_grid.png-1.png";
                   lit "./images/a_cat_grid.png-2.png";
                   lit "./images/a_cat_grid.png-3.png"],
               [(lit "./images/a_cat_grid.png-0.png", q0);
                (lit "./images/a_cat_grid.png-1.png", q1);
                (lit "./images/a_cat_grid.png-2.png", q2);
                (lit "./images/a_cat_grid.png-3.png", q3)]).
Proof.
  split.
  - intros url. eexists. split; reflexivity.
  - do 4 eexists. reflexivity.
Qed.

Lemma wait_for_image_download_failure_witness :
  _wait_for_image (server 404) (fun _ => Raise UnidentifiedImageError)
                  disk_makedirs disk_save
                  [lit "chat-messages-11-101"]
                  example_prompt example_session 5 0
  = Some (Raise UnidentifiedImageError, @nil (str * Image (N * N) unit)).
Proof.
  apply (@wait_for_image_download_failure _ _
           (server 404) (fun _ => Raise UnidentifiedImageError)
           disk_makedirs disk_save
           [lit "chat-messages-11-101"] example_prompt example_session
           5 0 2 _ grid_url UnidentifiedImageError example_first_accepted).
  - lia.
  - reflexivity.
  - right. eexists. split; reflexivity.
Defined.

(** ** Message extraction *)

(** A message whose id cannot be read because its node is stale or gone is
    skipped, and so is one without id. *)
Lemma extract_loop_skips_unreadable_id (message : WebElement)
      (later : list WebElement) :
  get_id message = Raise StaleElementReferenceException
  \/ get_id message = Raise NoSuchElementException
  \/ get_id message = Raise AttributeError
  \/ get_id message = Ok None ->
  extract_loop (message :: later) = extract_loop later.
Proof.
  intros [H|[H|[H|H]]]; cbn [extract_loop]; rewrite H; reflexivity.
Qed.

(** C9, the failing input.  On a page that shows a finished grid
    message, a message without the content [div] and a plain message, with
    the session initialised, the [NoSuchElementException] of [find_element]
    is not caught: the extraction raises it instead of skipping that
    message, and the polling loop ends with it although the grid message
    is on the page. *)
Theorem extract_messages_missing_content_is_fatal :
  driver bare_session <> None
  /\ extract_messages bare_session 0 = Raise NoSuchElementException
  /\ _wait_for_image (server 200) decoder disk_makedirs disk_save
        [] example_prompt bare_session 5 0
     = Some (Raise NoSuchElementException, [])
  /\ extract_loop [grid_element; text_element]
     = Ok [{| id := lit "chat-messages-11-103";
              content := lit "**a cat <https://x.com/b>** - @alice (fast)";
              images := [grid_url] |}].
Proof.
  split; [discriminate|]. repeat split; reflexivity.
Qed.

Lemma get_image_url_cases (message : WebElement) :
  _get_image_url message
  = match find_links message with
    | Raise e => Raise e
    | Ok [] => Ok []
    | Ok (first :: _) =>
      match href first with
      | Raise e => Raise e
      | Ok None => Ok []
      | Ok (Some u) => Ok u
      end
    end.
Proof.
  unfold _get_image_url. cbn.
  destruct (find_links message) as [[|first rest]|e]; cbn; try reflexivity.
  destruct (href first) as [[[|c u]|]|e]; reflexivity.
Qed.

(** C10.  Every message that [extract_messages] returns has exactly one
    image reference, a non-empty string; the messages returned are, in
    order, those of the elements whose id could be read and is present and
    from which an image URL was extracted: every other element is left
    out. *)
Theorem extract_messages_one_image
        (self : MidJourneyAPI) (tick : nat) (messages : list DiscordMessage) :
  extract_messages self tick = Ok messages ->
  Forall (fun m => exists url, images m = [url] /\ url <> []) messages
  /\ exists drv,
       driver self = Some drv
       /\ map id messages
          = flat_map (fun element =>
                        match get_id element, _get_image_url element with
                        | Ok (Some message_id), Ok (_ :: _) => [message_id]
                        | _, _ => []
                        end) (drv tick).
Proof.
  unfold extract_messages. destruct (driver self) as [drv|]; [|discriminate].
  intros H.
  enough (Forall (fun m => exists url, images m = [url] /\ url <> []) messages
          /\ map id messages
             = flat_map (fun element =>
                           match get_id element, _get_image_url element with
                           | Ok (Some message_id), Ok (_ :: _) => [message_id]
                           | _, _ => []
                           end) (drv tick))
    as [H1 H2] by (split; [exact H1 | exists drv; split; [reflexivity | exact H2]]).
  revert messages H.
  induction (drv tick) as [|element later IH]; intros messages H.
  - inversion H. split; [constructor | reflexivity].
  - cbn [extract_loop flat_map] in *.
    destruct (get_id element) as [[message_id|]|e].
    + destruct (find_content element) as [content_div|e]; [|discriminate].
      cbn [bind] in H.
      destruct (text content_div) as [text_content|e]; [|discriminate].
      cbn [bind] in H.
      destruct (_get_image_url element) as [[|c url]|e]; cbn in H;
        [apply IH, H | | discriminate].
      destruct (extract_loop later) as [extracted|e]; [|discriminate].
      cbn in H. inversion H; subst messages.
      destruct (IH extracted eq_refl) as [IH1 IH2]. split.
      * constructor; [|exact IH1]. exists (c :: url). split; [reflexivity|discriminate].
      * cbn. rewrite IH2. reflexivity.
    + apply IH, H.
    + destruct e; try discriminate; apply IH, H.
Qed.

Lemma extract_messages_one_image_witness :
  Forall (fun m => exists url, images m = [url] /\ url <> [])
         [{| id := lit "chat-messages-11-103";
             content := lit "**a cat <https://x.com/b>** - @alice (fast)";
             images := [grid_url] |}].
Proof.
  apply (@extract_messages_one_image example_session 2
           [{| id := lit "chat-messages-11-103";
               content := lit "**a cat <https://x.com/b>** - @alice (fast)";
               images := [grid_url] |}]).
  reflexivity.
Defined.

(** ** More on prompt matching *)

(** Where the pattern matches nowhere, [re.sub] changes nothing. *)
Lemma sub_from_no_match (r : Re.regex) (repl s : str) :
  Re.search r s = false -> Re.sub_from r repl 0 s = s.
Proof.
  induction s as [|c s IH]; [reflexivity|].
  cbn [Re.search Re.sub_from].
  destruct (Re.match_ r (c :: s)); [discriminate|].
  intros H. rewrite IH by exact H. reflexivity.
Qed.

Lemma normalized_url_free (s : str) : url_free s -> normalized s = lower s.
Proof.
  intros H. rewrite <- sub_url_normalized. apply sub_from_no_match, H.
Qed.

(** X1.  For a prompt and a content in which the URL pattern is found
    nowhere, the prompt matcher is the substring test on the lower-cased
    strings. *)
Theorem match_prompt_without_urls (prompt message_content : str) :
  url_free prompt -> url_free message_content ->
  (_match_mid_journey_prompt_ignoring_urls prompt message_content = true
   <-> Substring (lower prompt) (lower message_content)).
Proof.
  intros Hp Hc. unfold _match_mid_journey_prompt_ignoring_urls.
  rewrite !sub_url_normalized, !normalized_url_free by assumption.
  apply contains_spec.
Qed.

Lemma match_prompt_without_urls_witness :
  _match_mid_journey_prompt_ignoring_urls
    (lit "A Cat --ar 16:9") (lit "**a cat --ar 16:9** - @alice (fast)") = true
  <-> Substring (lower (lit "A Cat --ar 16:9"))
                (lower (lit "**a cat --ar 16:9** - @alice (fast)")).
Proof.
  apply (@match_prompt_without_urls
           (lit "A Cat --ar 16:9") (lit "**a cat --ar 16:9** - @alice (fast)"));
    reflexivity.
Defined.

Lemma contains_nil (s : str) : contains s [] = true.
Proof. destruct s; reflexivity. Qed.

(** X2.  The empty prompt matches every message content. *)
Theorem match_prompt_empty (message_content : str) :
  _match_mid_journey_prompt_ignoring_urls [] message_content = true.
Proof.
  unfold _match_mid_journey_prompt_ignoring_urls.
  change (Re.sub url_pattern url_token (lower [])) with (@nil ascii).
  apply contains_nil.
Qed.

Lemma lower_char_idem (c : ascii) : lower_char (lower_char c) = lower_char c.
Proof.
  destruct c as [[] [] [] [] [] [] [] []]; reflexivity.
Qed.

Lemma lower_idem (s : str) : lower (lower s) = lower s.
Proof.
  unfold lower. rewrite map_map. apply map_ext, lower_char_idem.
Qed.

(** X3.  Letter case is ignored: putting either argument, or both, in
    lower case first does not change the result. *)
Theorem match_prompt_ignores_case (prompt message_content : str) :
  _match_mid_journey_prompt_ignoring_urls (lower prompt) message_content
  = _match_mid_journey_prompt_ignoring_urls prompt message_content
  /\ _match_mid_journey_prompt_ignoring_urls prompt (lower message_content)
     = _match_mid_journey_prompt_ignoring_urls prompt message_content.
Proof.
  unfold _match_mid_journey_prompt_ignoring_urls.
  rewrite !lower_idem. split; reflexivity.
Qed.

Lemma Substring_refl (s : str) : Substring s s.
Proof. exists [], []. simpl. symmetry. apply app_nil_r. Qed.

Lemma Substring_trans (a b c : str) :
  Substring a b -> Substring b c -> Substring a c.
Proof.
  intros (x & y & ->) (x' & y' & ->).
  exists (x' ++ x), (y ++ y'). rewrite <- !app_assoc. reflexivity.
Qed.

(** X4.  Matching is reflexive and transitive: every text matches itself,
    and when a prompt matches a text that, taken as a prompt, matches a
    content, the first prompt matches that content. *)
Theorem match_prompt_preorder (a b c : str) :
  _match_mid_journey_prompt_ignoring_urls a a = true
  /\ (_match_mid_journey_prompt_ignoring_urls a b = true ->
      _match_mid_journey_prompt_ignoring_urls b c = true ->
      _match_mid_journey_prompt_ignoring_urls a c = true).
Proof.
  unfold _match_mid_journey_prompt_ignoring_urls.
  rewrite !sub_url_normalized, !contains_spec. split.
  - apply Substring_refl.
  - apply Substring_trans.
Qed.



Lemma isspace_lower_char (c : ascii) : isspace (lower_char c) = isspace c.
Proof.
  destruct c as [[] [] [] [] [] [] [] []]; reflexivity.
Qed.

Lemma word_after_space (p a rest : str) (sp : ascii) :
  forallb nonspace p = true -> isspace sp = true ->
  word_after p (a ++ sp :: rest) = word_after p a.
Proof.
  intros Hp Hsp. rewrite word_after_app. unfold word_after at 2.
  destruct (strip_prefix p a) as [[|c r]|] eqn:E.
  - unfold nonspace. rewrite Hsp. reflexivity.
  - reflexivity.
  - destruct (strip_prefix a p) as [p'|] eqn:E'; [|reflexivity].
    apply strip_prefix_Some in E'. destruct p' as [|x p'].
    + rewrite app_nil_r in E'. subst p.
      rewrite (proj2 (strip_prefix_Some a a []) (eq_sym (app_nil_r a))) in E.
      discriminate.
    + apply (word_after_mismatch p' (c := sp) (t := rest) eq_refl).
      intros ->. subst p. rewrite forallb_app in Hp.
      apply andb_true_iff in Hp as [_ Hp]. simpl in Hp.
      apply andb_true_iff in Hp as [Hx _].
      unfold nonspace in Hx. rewrite Hsp in Hx. discriminate.
Qed.

Lemma has_scheme_space (a rest : str) (sp : ascii) :
  isspace sp = true -> has_scheme (a ++ sp :: rest) = has_scheme a.
Proof.
  intros Hsp. unfold has_scheme.
  rewrite !word_after_space by (exact Hsp || reflexivity). reflexivity.
Qed.

(** Whether a URL begins is decided before the next white space. *)
Lemma begins_url_space (a rest : str) (sp : ascii) :
  isspace sp = true -> begins_url (a ++ sp :: rest) = begins_url a.
Proof.
  intros Hsp. unfold begins_url. rewrite has_scheme_space by exact Hsp.
  destruct a as [|c a].
  - cbn. destruct (Ascii.eqb_spec sp "<") as [->|]; [discriminate | reflexivity].
  - cbn [app]. rewrite has_scheme_space by exact Hsp. reflexivity.
Qed.

(** White space cuts the replacement of URLs in two. *)
Lemma replace_urls_space (in_url : bool) (a rest : str) (sp : ascii) :
  isspace sp = true ->
  replace_urls in_url (a ++ sp :: rest)
  = replace_urls in_url a ++ sp :: replace_urls false rest.
Proof.
  intros Hsp. revert in_url. induction a as [|c a IH]; intros in_url.
  - cbn. rewrite Hsp. reflexivity.
  - change ((c :: a) ++ sp :: rest) with (c :: a ++ sp :: rest).
    cbn [replace_urls].
    change (c :: a ++ sp :: rest) with ((c :: a) ++ sp :: rest).
    rewrite begins_url_space by exact Hsp. rewrite !IH.
    destruct (isspace c); [reflexivity|].
    destruct in_url; [reflexivity|].
    destruct (begins_url (c :: a)); [|reflexivity].
    rewrite <- app_assoc. reflexivity.
Qed.

Lemma normalized_space (a rest : str) (sp : ascii) :
  isspace sp = true ->
  normalized (a ++ sp :: rest)
  = normalized a ++ lower_char sp :: normalized rest.
Proof.
  intros Hsp. unfold normalized. rewrite lower_app. cbn [lower map].
  apply replace_urls_space. rewrite isspace_lower_char. exact Hsp.
Qed.

Lemma Substring_context (p s before after : str) :
  Substring p s -> Substring p (before ++ s ++ after).
Proof.
  intros (x & y & ->). exists (before ++ x), (y ++ after).
  rewrite <- !app_assoc. reflexivity.
Qed.

(** X6.  A content that matches a prompt still matches it when other text
    is put around it, separated from it by white space. *)
Theorem match_prompt_in_context (prompt message_content before after : str) :
  left_context before -> right_context after ->
  _match_mid_journey_prompt_ignoring_urls prompt message_content = true ->
  _match_mid_journey_prompt_ignoring_urls
    prompt (before ++ message_content ++ after) = true.
Proof.
  unfold _match_mid_journey_prompt_ignoring_urls.
  rewrite !sub_url_normalized, !contains_spec. intros Hl Hr Hsub.
  assert (Hright : exists y, normalized (message_content ++ after)
                             = normalized message_content ++ y).
  { destruct Hr as [->|(sp & s0 & -> & Hsp)].
    - exists []. rewrite !app_nil_r. reflexivity.
    - rewrite normalized_space by exact Hsp. eauto. }
  destruct Hright as (y & Hy).
  destruct Hl as [->|(s0 & sp & -> & Hsp)].
  - cbn [app]. rewrite Hy.
    apply (Substring_context [] y) in Hsub. exact Hsub.
  - rewrite <- app_assoc. cbn [app].
    rewrite normalized_space by exact Hsp. rewrite Hy.
    apply (Substring_context (normalized s0 ++ [lower_char sp]) y) in Hsub.
    rewrite <- app_assoc in Hsub. exact Hsub.
Qed.

Lemma match_prompt_in_context_witness :
  _match_mid_journey_prompt_ignoring_urls
    (lit "a cat https://x.com/a")
    (lit "<@bob> " ++ lit "**a cat <https://s.mj.run/Qq1>**" ++ lit " - @alice (fast)")
  = true.
Proof.
  apply (@match_prompt_in_context (lit "a cat https://x.com/a")
           (lit "**a cat <https://s.mj.run/Qq1>**")
           (lit "<@bob> ") (lit " - @alice (fast)")).
  - right. exists (lit "<@bob>"), " "%char. split; reflexivity.
  - right. exists " "%char, (lit "- @alice (fast)"). split; reflexivity.
  - reflexivity.
Defined.

(** ** The classification table *)








(** ** More on quadrants *)

(** X10.  The four quadrants that the splitting returns tile the source:
    every pixel of the source lies in exactly one quadrant, placed with
    its top-left corner at (0, 0), (W/2, 0), (0, H/2) or (W/2, H/2), and
    has the same value there; no pixel is lost, moved or copied twice. *)
Theorem split_in_four_partition (px meta : Type) (image : Image px meta)
        (quadrants : list (Image px meta)) :
  _split_in_four image = Ok quadrants ->
  let W := width image in
  let H := height image in
  exists q0 q1 q2 q3 : Image px meta,
    quadrants = [q0; q1; q2; q3]
    /\ forall x y : N, (x < W)%N -> (y < H)%N ->
       exists! i : nat,
         exists q ox oy,
           nth_error [(q0, (0, 0)); (q1, (W / 2, 0));
                      (q2, (0, H / 2)); (q3, (W / 2, H / 2))]%N i
           = Some (q, (ox, oy))
           /\ (ox <= x < ox + width q)%N
           /\ (oy <= y < oy + height q)%N
           /\ getpixel q (x - ox) (y - oy) = getpixel image x y.
Proof.
  intros Hs W H. apply split_in_four_iff in Hs as [_ ->].
  unfold quadrants_of. fold W H. clearbody W H.
  pose proof (floor_half_le W) as HW. pose proof (floor_half_le H) as HH.
  unfold floor_half in *.
  set (w := (W / 2)%N) in *. set (h := (H / 2)%N) in *. clearbody w h.
  do 4 eexists. split; [reflexivity|].
  intros x y Hx Hy.
  destruct (N.ltb_spec x w) as [Hxl|Hxr];
    destruct (N.ltb_spec y h) as [Hyl|Hyr];
    [exists 0 | exists 2 | exists 1 | exists 3];
    (split;
     [do 3 eexists; split; [reflexivity|]; cbn [region width height getpixel];
      repeat split; try lia; f_equal; lia
     |intros i (q & ox & oy & Hi & Hbx & Hby & _);
      destruct i as [|[|[|[|i]]]]; cbn in Hi;
      [| | | |destruct i; discriminate Hi];
      inversion Hi; subst; cbn [region width height] in *; lia]).
Qed.

Lemma image_101_split : _split_in_four image_101 = Ok (quadrants_of image_101).
Proof. reflexivity. Qed.

Lemma split_in_four_partition_witness :
  exists q0 q1 q2 q3 : Image (N * N) unit,
    quadrants_of image_101 = [q0; q1; q2; q3]
    /\ forall x y : N, (x < 101)%N -> (y < 101)%N ->
       exists! i : nat,
         exists q ox oy,
           nth_error [(q0, (0, 0)); (q1, (50, 0));
                      (q2, (0, 50)); (q3, (50, 50))]%N i
           = Some (q, (ox, oy))
           /\ (ox <= x < ox + width q)%N
           /\ (oy <= y < oy + height q)%N
           /\ getpixel q (x - ox) (y - oy) = (x, y).
Proof.
  apply (@split_in_four_partition _ _ image_101 (quadrants_of image_101)).
  exact image_101_split.
Defined.

(** X11.  The four quadrants that the splitting returns have one and the
    same size exactly when the width and the height of the source are both
    even. *)
Theorem split_in_four_equal_sizes (px meta : Type) (image : Image px meta)
        (quadrants : list (Image px meta)) :
  _split_in_four image = Ok quadrants ->
  exists q0 q1 q2 q3 : Image px meta,
    quadrants = [q0; q1; q2; q3]
    /\ ((size q0 = size q1 /\ size q1 = size q2 /\ size q2 = size q3)
        <-> (width image mod 2 = 0 /\ height image mod 2 = 0)%N).
Proof.
  intros Hs. apply split_in_four_iff in Hs as [_ ->].
  unfold quadrants_of. do 4 eexists. split; [reflexivity|].
  unfold size, region. cbn [width height].
  pose proof (N.Div0.div_mod (width image) 2) as Hw.
  pose proof (N.Div0.div_mod (height image) 2) as Hh.
  assert (Hw2 : (width image mod 2 < 2)%N)
    by (apply N.mod_upper_bound; discriminate).
  assert (Hh2 : (height image mod 2 < 2)%N)
    by (apply N.mod_upper_bound; discriminate).
  revert Hw Hh Hw2 Hh2.
  generalize (width image) (height image)
             (height image mod 2)%N (height image / 2)%N
             (width image mod 2)%N (width image / 2)%N.
  intros W H rh h rw w Hw Hh Hw2 Hh2. split.
  - intros (H1 & H2 & H3). inversion H1. inversion H2. lia.
  - intros [Hwe Hhe].
    replace (W - w)%N with (w - 0)%N by lia.
    replace (H - h)%N with (h - 0)%N by lia.
    repeat split.
Qed.

Lemma split_in_four_equal_sizes_witness :
  exists q0 q1 q2 q3 : Image (N * N) unit,
    quadrants_of image_101 = [q0; q1; q2; q3]
    /\ ((size q0 = size q1 /\ size q1 = size q2 /\ size q2 = size q3)
        <-> (101 mod 2 = 0 /\ 101 mod 2 = 0)%N).
Proof.
  apply (@split_in_four_equal_sizes _ _ image_101 (quadrants_of image_101)).
  exact image_101_split.
Defined.

(** ** More on file names *)

Lemma split_app_sep (sep : ascii) (a r : str) :
  split sep (a ++ sep :: r) = split sep a ++ split sep r.
Proof.
  induction a as [|c a IH]; cbn [app split].
  - rewrite Ascii.eqb_refl. reflexivity.
  - destruct (Ascii.eqb c sep); [rewrite IH; reflexivity|].
    rewrite IH. pose proof (split_nonempty sep a) as Hne.
    destruct (split sep a) as [|w ws]; [congruence | reflexivity].
Qed.

Lemma split_without_sep (sep : ascii) (r : str) :
  ~ In sep r -> split sep r = [r].
Proof.
  induction r as [|c r IH]; [reflexivity|]. intros Hno. cbn [split].
  destruct (Ascii.eqb_spec c sep) as [->|Hc].
  - exfalso. apply Hno. left. reflexivity.
  - rewrite IH; [reflexivity|]. intros H. apply Hno. right. exact H.
Qed.

Lemma last_append (A : Type) (l1 l2 : list A) (d : A) :
  l2 <> [] -> last (l1 ++ l2) d = last l2 d.
Proof.
  intros Hne. induction l1 as [|x l1 IH]; [reflexivity|].
  cbn [app]. destruct (l1 ++ l2) eqn:E.
  - apply app_eq_nil in E as [_ E]. congruence.
  - rewrite <- IH. reflexivity.
Qed.

(** X12.  The file name computed from a download URL is its base name
    without the query string, and nothing else is: it is the only [name]
    such that the URL reads [dir ++ name ++ query] with [dir] empty or
    ending with ['/'], no ['/'] after it, no ['?'] in [name], and [query]
    empty or starting with ['?'].  So the directory and the query string of
    the URL have no part in the names of the files written. *)
Theorem file_name_of_iff_base_name (url name : str) :
  file_name_of url = name <-> base_name url name.
Proof.
  split; [intros <-; apply file_name_of_base_name|].
  intros (dir & query & -> & Hdir & Hslash & Hname & Hquery).
  unfold file_name_of.
  assert (Hlast : last (split "/" (dir ++ name ++ query)) [] = name ++ query).
  { destruct Hdir as [->|(d & ->)].
    - cbn [app]. rewrite split_without_sep by exact Hslash. reflexivity.
    - rewrite <- app_assoc. cbn [lit list_ascii_of_string app].
      rewrite split_app_sep, last_append by apply split_nonempty.
      rewrite split_without_sep by exact Hslash. reflexivity. }
  rewrite Hlast. destruct Hquery as [->|(q & ->)].
  - rewrite app_nil_r, split_without_sep by exact Hname. reflexivity.
  - cbn [lit list_ascii_of_string app].
    rewrite split_app_sep, split_without_sep by exact Hname. reflexivity.
Qed.

Lemma app_same_length (A : Type) (a a' t t' : list A) :
  length t = length t' -> a ++ t = a' ++ t' -> a = a' /\ t = t'.
Proof.
  intros Hlen H.
  assert (Hl : length a = length a').
  { apply (f_equal (@length A)) in H. rewrite !length_app in H. lia. }
  clear Hlen. revert a' Hl H.
  induction a as [|x a IH]; intros [|x' a'] Hl H; try discriminate.
  - split; [reflexivity | exact H].
  - cbn in H. inversion H as [[Hx Ht]]. inversion Hl as [Hl'].
    destruct (IH a' Hl' Ht) as [-> ->]. split; reflexivity.
Qed.

(** X13.  Two of the paths that the loop writes to are the same only for
    the same file name and the same quadrant index: the four quadrants of
    one result go to four different files, and results with different
    file names never share a file. *)
Theorem full_path_of_injective (name name' : str) (i j : nat) :
  i < 4 -> j < 4 ->
  full_path_of name i = full_path_of name' j ->
  name = name' /\ i = j.
Proof.
  intros Hi Hj H. unfold full_path_of in H.
  apply app_inv_head in H.
  assert (Hlen : length (lit "-" ++ str_of_nat i ++ lit ".png")
                 = length (lit "-" ++ str_of_nat j ++ lit ".png")).
  { destruct i as [|[|[|[|i]]]]; [| | | |lia];
      (destruct j as [|[|[|[|j]]]]; [| | | |lia]); reflexivity. }
  destruct (app_same_length _ _ _ _ Hlen H) as [Hn Ht].
  split; [exact Hn|].
  destruct i as [|[|[|[|i]]]]; [| | | |lia];
    (destruct j as [|[|[|[|j]]]]; [| | | |lia]);
    try reflexivity; discriminate Ht.
Qed.

Lemma full_path_of_injective_witness :
  lit "grid.png" = lit "grid.png" /\ 2 = 2.
Proof.
  apply (@full_path_of_injective (lit "grid.png") (lit "grid.png") 2 2);
    [lia | lia | reflexivity].
Defined.

(** ** More on the polling loop *)


Section PollingMore.

Variables (px meta : Type).
Variable requests_get : str -> res Response.
Variable Image_open : list ascii -> res (Image px meta).
Variable os_makedirs : res unit.
Variable Image_save : Image px meta -> str -> meta -> res unit.
Variables (old_message_ids : list str) (prompt : str).
Variable self : MidJourneyAPI.

(** X14.  The loop has no time limit: as long as every poll extracts the
    messages without error and none of them is accepted, the loop is
    still running, however many polls have passed. *)
Theorem wait_for_image_keeps_polling (fuel tick : nat) :
  quiet_until self prompt old_message_ids tick (tick + fuel) ->
  _wait_for_image requests_get Image_open os_makedirs Image_save
        old_message_ids prompt self
                  fuel tick = None.
Proof.
  revert tick. induction fuel as [|fuel IH]; intros tick Hquiet;
    [reflexivity|].
  cbn [_wait_for_image].
  destruct (Hquiet tick) as (messages & -> & Hnone); [lia|].
  rewrite scan_messages_find, Hnone. cbn [option_map].
  apply IH. intros t' Ht'. apply Hquiet. lia.
Qed.


(** X16.  An exception of the extraction ends the loop: when the polls so
    far accepted no message and the next extraction raises, the loop raises
    the same exception, and no file has been written. *)
Theorem wait_for_image_extraction_error
        (fuel tick t : nat) (e : exn) :
  quiet_until self prompt old_message_ids tick t ->
  tick <= t < tick + fuel ->
  extract_messages self t = Raise e ->
  _wait_for_image requests_get Image_open os_makedirs Image_save
        old_message_ids prompt self
                  fuel tick = Some (Raise e, []).
Proof.
  revert tick. induction fuel as [|fuel IH]; intros tick Hquiet Ht He; [lia|].
  cbn [_wait_for_image]. destruct (Nat.eq_dec tick t) as [->|Hne].
  - rewrite He. reflexivity.
  - destruct (Hquiet tick) as (messages & -> & Hnone); [lia|].
    rewrite scan_messages_find, Hnone. cbn [option_map].
    apply IH; [|lia|exact He]. intros t' Ht'. apply Hquiet. lia.
Qed.

End PollingMore.

Lemma example_quiet :
  quiet_until example_session example_prompt [lit "chat-messages-11-101"] 0 2.
Proof.
  intros t' Ht'.
  destruct t' as [|[|t']]; [| |lia]; eexists; split; reflexivity.
Qed.

Lemma wait_for_image_keeps_polling_witness :
  _wait_for_image (server 200) decoder disk_makedirs disk_save
        [lit "chat-messages-11-101"]
                  example_prompt example_session 2 0 = None.
Proof.
  apply (@wait_for_image_keeps_polling _ _ (server 200) decoder disk_makedirs disk_save
           [lit "chat-messages-11-101"] example_prompt example_session 2 0).
  exact example_quiet.
Defined.

(** On a disk where the third save fails, the loop raises and the first
    two quadrants stay on the disk. *)
Example wait_for_image_two_files_left :
  exists q0 q1,
    _wait_for_image (server 200) decoder disk_makedirs third_save_fails
                    [lit "chat-messages-11-101"]
                    example_prompt example_session 5 0
    = Some (Raise OSError,
            [(lit "./images/a_cat_grid.png-0.png", q0);
             (lit "./images/a_cat_grid.png-1.png", q1)]).
Proof. do 2 eexists. reflexivity. Qed.


Lemma wait_for_image_extraction_error_witness :
  _wait_for_image (server 200) decoder disk_makedirs disk_save [] example_prompt
                  {| driver := Some (fun tick =>
                       match tick with
                       | 0 => [text_element]
                       | _ => [grid_element; bare_element]
                       end) |} 5 0
  = Some (Raise NoSuchElementException, []).
Proof.
  apply (@wait_for_image_extraction_error _ _ (server 200) decoder disk_makedirs disk_save
        []
           example_prompt _ 5 0 1 NoSuchElementException).
  - intros t' Ht'. destruct t' as [|t']; [|lia].
    eexists. split; reflexivity.
  - lia.
  - reflexivity.
Defined.

(** ** More on message extraction *)

Lemma extract_loop_iff (messages : list WebElement)
      (extracted : list DiscordMessage) :
  extract_loop messages = Ok extracted
  <-> Forall readable messages /\ extracted = flat_map message_of messages.
Proof.
  revert extracted. induction messages as [|element later IH]; intros extracted.
  - cbn. split.
    + intros H. inversion H. split; [constructor | reflexivity].
    + intros [_ ->]. reflexivity.
  - cbn [extract_loop flat_map]. rewrite Forall_cons_iff.
    unfold readable at 1, message_of at 1.
    destruct (get_id element) as [[message_id|]|e].
    + destruct (find_content element) as [content_div|e] eqn:Ec; cbn [bind].
      * destruct (text content_div) as [text_content|e] eqn:Et; cbn [bind].
        -- destruct (_get_image_url element) as [[|c url]|e] eqn:Eu;
             cbn [bind truthy negb].
           ++ rewrite IH. cbn [app]. split.
              ** intros [H1 H2]. split; [split; [|exact H1] | exact H2].
                 exists content_div, text_content, []. auto.
              ** intros [[_ H1] H2]. split; assumption.
           ++ split.
              ** destruct (extract_loop later) as [rest|e] eqn:E; cbn [bind];
                   [|discriminate].
                 intros H. inversion H; subst extracted.
                 destruct (proj1 (IH rest) eq_refl) as [H1 ->].
                 split; [split; [|exact H1] | reflexivity].
                 exists content_div, text_content, (c :: url). auto.
              ** intros [[_ H1] ->].
                 rewrite (proj2 (IH _) (conj H1 eq_refl)). reflexivity.
           ++ split; [discriminate|].
              intros [[(cd & t & u & _ & _ & Hu) _] _]. discriminate Hu.
        -- split; [discriminate|].
           intros [[(cd & t & u & Hcd & Ht & _) _] _].
           inversion Hcd; subst cd. rewrite Et in Ht. discriminate Ht.
      * split; [discriminate|].
        intros [[(cd & t & u & Hcd & _) _] _]. discriminate Hcd.
    + rewrite IH. cbn [app]. tauto.
    + destruct e; try (rewrite IH; cbn [app]; tauto);
        (split; [discriminate | intros [[[] _] _]]).
Qed.

(** X17.  The extraction succeeds exactly when the driver is there and
    every message element is readable: each id is read or its reading fails
    with a caught exception, and for each element with an id the content
    [div], its text and the image URL are read without exception.  The
    messages returned are then, in the order of the page, the messages of
    the elements that have an id and an image URL, each with the id, the
    text and that one URL. *)
Theorem extract_messages_iff
        (self : MidJourneyAPI) (tick : nat) (extracted : list DiscordMessage) :
  extract_messages self tick = Ok extracted
  <-> exists drv,
        driver self = Some drv
        /\ Forall readable (drv tick)
        /\ extracted = flat_map message_of (drv tick).
Proof.
  unfold extract_messages. destruct (driver self) as [drv|].
  - rewrite extract_loop_iff. split.
    + intros [H1 H2]. exists drv. auto.
    + intros (drv' & Hd & H1 & H2). inversion Hd; subst drv'. auto.
  - split; [discriminate|]. intros (drv & Hd & _). discriminate Hd.
Qed.

(** ** [create_image] *)

Lemma run_actions_done (browser : Browser) (todo done done' : list action) :
  run_actions browser todo done = (None, done') -> done' = done ++ todo.
Proof.
  revert done. induction todo as [|a todo IH]; intros done; cbn [run_actions].
  - intros H. inversion H. symmetry. apply app_nil_r.
  - destruct (browser done a); [discriminate|].
    intros H. apply IH in H. rewrite H, <- app_assoc. reflexivity.
Qed.

Lemma run_actions_prefix (browser : Browser) (todo done done' : list action)
      (r : option failure) :
  run_actions browser todo done = (r, done') ->
  exists carried rest, todo = carried ++ rest /\ done' = done ++ carried.
Proof.
  revert done. induction todo as [|a todo IH]; intros done; cbn [run_actions].
  - intros H. inversion H. subst. exists [], [].
    split; [reflexivity | symmetry; apply app_nil_r].
  - destruct (browser done a).
    + intros H. inversion H. subst. exists [], (a :: todo).
      split; [reflexivity | symmetry; apply app_nil_r].
    + intros H. apply IH in H as (carried & rest & -> & ->).
      exists (a :: carried), rest. rewrite <- app_assoc. auto.
Qed.

Section CreateImageFacts.

Variables (px meta : Type).
Variable requests_get : str -> res Response.
Variable Image_open : list ascii -> res (Image px meta).
Variable os_makedirs : res unit.
Variable Image_save : Image px meta -> str -> meta -> res unit.
Variable browser : Browser.
Variables (self : MidJourneyAPI) (prompt : str).

(** X18.  When [create_image] returns paths, all its commands were carried
    out, in order and once each; the messages were read without error
    before the prompt was sent; and the paths are those of the four
    quadrants of the image of a message that was read later, was accepted
    by the loop, and whose id is the id of none of the messages read
    before the prompt was sent. *)
Theorem create_image_returns_new_message
        (fuel : nat) (image_paths : list str) (fs : files px meta)
        (done : list action) :
  create_image requests_get Image_open os_makedirs Image_save
        browser self prompt fuel
  = (Some (Returned image_paths, fs), done) ->
  done = all_actions prompt
  /\ exists before t message url,
       extract_messages self 0 = Ok before
       /\ 1 <= t
       /\ first_accepted self prompt (map id before) 1 t message
       /\ (forall old, In old before -> id old <> id message)
       /\ images message = [url]
       /\ image_paths = quadrant_paths (file_name_of url)
       /\ map fst fs = image_paths.
Proof.
  unfold create_image. destruct (driver self) as [drv|] eqn:Ed; [|discriminate].
  destruct (run_actions browser _ []) as [[f|] done1] eqn:E1; [discriminate|].
  destruct (extract_messages self 0) as [before|e] eqn:Ex; [|discriminate].
  destruct (run_actions browser _ done1) as [[f|] done2] eqn:E2; [discriminate|].
  destruct (_wait_for_image _ _ _ _ _ _ _) as [[[paths|e] fs']|] eqn:Ew;
    try discriminate.
  intros H. inversion H; subst paths fs' done2. clear H.
  apply run_actions_done in E1, E2. subst done1. split; [exact E2|].
  apply wait_inv in Ew as (t & Ht & [(e & _ & He)|(m & Hfirst & Hout)]);
    [discriminate|].
  pose proof Hfirst as (_ & _ & messages & _ & Hfind).
  apply find_some in Hfind as [_ Hacc].
  apply accepted_inv in Hacc as (_ & Hid & _ & url & Himg).
  symmetry in Hout.
  destruct (deliver_inv _ _ _ _ _ _ Himg Hout)
    as (resp & img & _ & _ & _ & _ & _ & -> & ->).
  exists before, t, m, url.
  split; [reflexivity|]. split; [lia|]. split; [exact Hfirst|].
  split; [|split; [exact Himg | split; reflexivity]].
  intros old Hold Heq. apply Hid. rewrite <- Heq. apply in_map, Hold.
Qed.

(** X19.  The prompt is typed only after the messages on the page were
    read without error.  When that extraction raises, also for a missing
    driver, [create_image] fails, no text has been typed and no file has
    been written; and when the commands given before it all go through,
    the exception raised is the one of the extraction. *)
Theorem create_image_extraction_first
        (fuel : nat) (outcome : option (attempt * files px meta))
        (done : list action) (e : exn) :
  create_image requests_get Image_open os_makedirs Image_save
        browser self prompt fuel
  = (outcome, done) ->
  extract_messages self 0 = Raise e ->
  (exists f, outcome = Some (Failed f, []))
  /\ (forall s, ~ In (SendKeys (Text s)) done)
  /\ (fst (run_actions browser opening_actions []) = None ->
      outcome = Some (Failed (Raised e), [])).
Proof.
  intros H He. unfold create_image in H. unfold extract_messages in *.
  fold opening_actions in H.
  destruct (driver self) as [drv|] eqn:Ed.
  - rewrite He in H.
    destruct (run_actions browser opening_actions []) as [[f|] done1] eqn:E1;
      inversion H; subst outcome done1; clear H;
      apply run_actions_prefix in E1 as (carried & rest & Hc & ->);
      (split; [eauto|]); (split; [|cbn [fst]; congruence]);
      intros s Hin; cbn [app] in Hin;
      assert (Hin' : In (SendKeys (Text s)) opening_actions)
        by (rewrite Hc; apply in_or_app; left; exact Hin);
      cbn in Hin';
      repeat (destruct Hin' as [Hin'|Hin']; [discriminate Hin'|]);
      exact Hin'.
  - inversion He; subst e. inversion H; subst outcome done.
    split; [eauto|]. split; [intros s []|]. reflexivity.
Qed.

End CreateImageFacts.

Lemma create_image_returns_new_message_witness :
  exists image_paths fs done,
    create_image (server 200) decoder disk_makedirs disk_save willing_browser
                 second_run_session example_prompt 5
    = (Some (Returned image_paths, fs), done)
    /\ image_paths = quadrant_paths (lit "a_cat_2.png")
    /\ done = all_actions example_prompt
    /\ exists before t message url,
         extract_messages second_run_session 0 = Ok before
         /\ 1 <= t
         /\ first_accepted second_run_session example_prompt
                           (map id before) 1 t message
         /\ (forall old, In old before -> id old <> id message)
         /\ images message = [url]
         /\ image_paths = quadrant_paths (file_name_of url)
         /\ map fst fs = image_paths.
Proof.
  do 3 eexists. split; [reflexivity|]. split; [reflexivity|].
  apply (@create_image_returns_new_message _ _ (server 200) decoder disk_makedirs disk_save
           willing_browser second_run_session example_prompt 5).
  reflexivity.
Defined.

Lemma create_image_extraction_first_witness :
  (exists f, Some (Failed (Raised NoSuchElementException),
                   @nil (str * Image (N * N) unit))
             = Some (Failed f, []))
  /\ (forall s, ~ In (SendKeys (Text s)) opening_actions)
  /\ (fst (run_actions willing_browser opening_actions []) = None ->
      Some (Failed (Raised NoSuchElementException),
            @nil (str * Image (N * N) unit))
      = Some (Failed (Raised NoSuchElementException), [])).
Proof.
  apply (@create_image_extraction_first _ _ (server 200) decoder disk_makedirs disk_save
           willing_browser bare_session example_prompt 5);
    reflexivity.
Defined.
